(** * cat-loggr: a shallow embedding of [src/Loggr.ts]

    The file embeds the TypeScript logger [CatLoggr] (level registry,
    per-call meta, hook chain, argument formatter and writer) as Rocq
    functions over an explicit logger record, and the meta handling of
    the older JavaScript variant that ships in the same source file.

    Modelling conventions.
    - JavaScript values are the inductive [jsval]; numbers are modelled
      by their integer value (fractional doubles, NaN and the infinities
      are outside the model), symbols and bigints are left out.
    - A JS object used as a dictionary ([_levelMap], the meta objects, the
      level functions bound on the instance) is a [gmap string _].
      Property reads on the plain object [_levelMap] also see the members
      inherited from [Object.prototype].
    - Everything the logger does to the outside (reading the clock,
      calling a hook, writing to a stream) is recorded in an event
      history; hooks are pure functions of their parameter object, and a
      stream write always succeeds.
    - The external capabilities (chalk, util.inspect, util.format,
      moment, the stack text of [new Error()]) are the fields of the
      class [Host].
    - Level names and aliases are taken not to shadow the logger's own
      members ([_format], [meta], [_hooks], ...) nor to be [__proto__]. *)

From Stdlib Require Import Ascii.
From stdpp Require Import base strings gmap list pretty.

Open Scope string_scope.
Open Scope list_scope.

(** ** JavaScript values *)

(** Every value except an array; [SObj] and [SFun] are opaque handles of
    objects (class instances, errors, plain objects) and of functions. *)
Inductive scalar : Type :=
| SUndefined
| SNull
| SBool (b : bool)
| SNum (n : Z)
| SStr (s : string)
| SObj (o : nat)
| SFun (f : nat).

#[warnings="-register-all"] Inductive jsval : Type :=
| Scalar (s : scalar)
| VArr (xs : list jsval).

Abbreviation VUndefined := (Scalar SUndefined).
Abbreviation VNull := (Scalar SNull).
Abbreviation VBool b := (Scalar (SBool b)).
Abbreviation VNum n := (Scalar (SNum n)).
Abbreviation VStr s := (Scalar (SStr s)).
Abbreviation VObj o := (Scalar (SObj o)).
Abbreviation VFun f := (Scalar (SFun f)).

(** [typeof v] *)
Definition typeof_scalar (s : scalar) : string :=
  match s with
  | SUndefined => "undefined"
  | SNull => "object"
  | SBool _ => "boolean"
  | SNum _ => "number"
  | SStr _ => "string"
  | SObj _ => "object"
  | SFun _ => "function"
  end.

Definition typeof (v : jsval) : string :=
  match v with
  | Scalar s => typeof_scalar s
  | VArr _ => "object"
  end.

(** [Array.isArray(v)] *)
Definition Array_isArray (v : jsval) : bool :=
  match v with
  | VArr _ => true
  | Scalar _ => false
  end.

(** [v === undefined || v === null] *)
Definition nullish (v : jsval) : bool :=
  match v with
  | VUndefined | VNull => true
  | _ => false
  end.

(** The truthiness that [if (v)], [!v] and [v || w] test. *)
Definition truthy (v : jsval) : bool :=
  match v with
  | VUndefined | VNull => false
  | VBool b => b
  | VNum n => negb (n =? 0)%Z
  | VStr s => negb (String.eqb s "")
  | VObj _ | VFun _ | VArr _ => true
  end.

(** [sep]-separated concatenation, as [Array.prototype.join] builds it. *)
Fixpoint join_strings (sep : string) (parts : list string) : string :=
  match parts with
  | [] => ""
  | [p] => p
  | p :: rest => p +:+ sep +:+ join_strings sep rest
  end.

Section to_string.
(** The text of an opaque object or function. *)
Variable obj_toString : nat → string.

(** [String(v)] / [v.toString()]; an array joins its elements with a
    comma, printing [undefined] and [null] elements as nothing. *)
Fixpoint js_toString (v : jsval) : string :=
  match v with
  | VUndefined => "undefined"
  | VNull => "null"
  | VBool true => "true"
  | VBool false => "false"
  | VNum n => pretty n
  | VStr s => s
  | VObj o => obj_toString o
  | VFun f => obj_toString f
  | VArr xs =>
      join_strings ","
        ((fix elems (l : list jsval) : list string :=
            match l with
            | [] => []
            | x :: l' => (if nullish x then "" else js_toString x) :: elems l'
            end) xs)
  end.

(** The text [Array.prototype.join] gives one element. *)
Definition join_element (v : jsval) : string :=
  if nullish v then "" else js_toString v.

(** [text.join(sep)] *)
Definition Array_join (sep : string) (text : list jsval) : string :=
  join_strings sep (map join_element text).
End to_string.

(** A line feed. *)
Definition LF : string := String (Ascii.ascii_of_nat 10) "".

(** [s.split(LF).slice(1).join(LF)]: the text after the first line. *)
Fixpoint drop_first_line (s : string) : string :=
  match s with
  | EmptyString => ""
  | String c rest =>
      if Ascii.eqb c (Ascii.ascii_of_nat 10) then rest else drop_first_line rest
  end.

(** ** Levels, meta objects, hooks *)

Module LogLevel.
(** [class LogLevel]. [oid] is the identity of the object, which is
    what [Array.prototype.indexOf] compares; [position] is
    [undefined] until [setLevels] assigns it. *)
Record t : Type := mk {
  oid : nat;
  name : string;
  color : string → string;
  err : bool;
  trace : bool;
  aliases : list string;
  position : option Z
}.

Definition set_position (p : option Z) (l : t) : t :=
  mk (oid l) (name l) (color l) (err l) (trace l) (aliases l) p.
End LogLevel.

(** A meta object: the own properties of a plain object. *)
Abbreviation MetaObj := (gmap string jsval).

(** [obj.key], [undefined] when the property is missing. *)
Definition prop (obj : MetaObj) (key : string) : jsval :=
  default VUndefined (obj !! key).

(** [Object.assign(target, source)]: the source's properties win. *)
Definition Object_assign (target source : MetaObj) : MetaObj :=
  source ∪ target.

Record Timestamp : Type := mkTimestamp {
  raw : Z;
  formatted : string;
  formattedRaw : string
}.

(** The parameter object of an arg-hook. *)
Record ArgHookParams : Type := mkArgHookParams {
  ah_arg : jsval;
  ah_date : Z
}.

(** The parameter object of a post-hook. *)
Record PostHookParams : Type := mkPostHookParams {
  ph_text : string;
  ph_date : Z;
  ph_timestamp : string;
  ph_shard : option string;
  ph_level : string;
  ph_error : bool
}.

(** An entry of a hook array: [addArgHook] and [addPostHook] push what
    they are given, and the loops skip what is not a function. *)
Inductive hook_entry (P : Type) : Type :=
| Callback (f : P → jsval)
| NotCallable.
Arguments Callback {P} f.
Arguments NotCallable {P}.

Inductive stream : Type :=
| process_stdout
| process_stderr
| user_stream (id : nat).

(** What the logger does to the outside, in the order it does it. *)
Inductive event : Type :=
| EvNow
| EvArgHook (i : nat) (params : ArgHookParams)
| EvPostHook (i : nat) (params : PostHookParams)
| EvWrite (s : stream) (chunk : string).

Definition is_now (e : event) : bool :=
  match e with EvNow => true | _ => false end.
Definition is_write (e : event) : bool :=
  match e with EvWrite _ _ => true | _ => false end.
Definition is_arg_hook (e : event) : bool :=
  match e with EvArgHook _ _ => true | _ => false end.
Definition is_post_hook (e : event) : bool :=
  match e with EvPostHook _ _ => true | _ => false end.

(** The chunks written so far, the arg-hooks and the post-hooks called
    so far (by index in their array), oldest first. *)
Definition writes (h : list event) : list (stream * string) :=
  omap (λ e, match e with EvWrite s c => Some (s, c) | _ => None end) h.
Definition arg_hook_calls (h : list event) : list (nat * ArgHookParams) :=
  omap (λ e, match e with EvArgHook i p => Some (i, p) | _ => None end) h.
Definition post_hook_calls (h : list event) : list (nat * PostHookParams) :=
  omap (λ e, match e with EvPostHook i p => Some (i, p) | _ => None end) h.

(** The events of calling every entry of [hooks] that is a function, in
    order; [i] is the index of the first entry. *)
Fixpoint hook_calls {P} (ev : nat → P → event) (i : nat)
  (hooks : list (hook_entry P)) (p : P) : list event :=
  match hooks with
  | [] => []
  | NotCallable :: rest => hook_calls ev (S i) rest p
  | Callback _ :: rest => ev i p :: hook_calls ev (S i) rest p
  end.

(** An entry lets the loop go on: it is not a function, or it returns
    [undefined] or [null] on [p]. *)
Definition declines {P} (p : P) (h : hook_entry P) : Prop :=
  match h with
  | Callback f => nullish (f p) = true
  | NotCallable => True
  end.

(** ** The host environment *)

Class Host : Type := {
  (** [chalk.<style>(text)], the style given by its path, as in
      [chalk "black.bgWhite"] for [chalk.black.bgWhite] *)
  chalk : string → string → string;
  util_inspect : jsval → MetaObj → string;
  util_format : string → list jsval → string;
  (** the instant the n-th reading of the clock returns *)
  moment_now : nat → Z;
  (** [ts.format('MM/DD HH:mm:ss')] *)
  moment_format : Z → string;
  (** [new Error().stack] inside [_format] *)
  Error_stack : string;
  obj_toString : nat → string;
  instanceof_Error : nat → bool;
  stack_of : nat → string
}.

(** ** The logger instance *)

Module LogHooks.
(** [class LogHooks] *)
Record t : Type := mk {
  arg : list (hook_entry ArgHookParams);
  post : list (hook_entry PostHookParams)
}.
End LogHooks.

(** The fields of a [CatLoggr] instance. [_bound] holds the level
    functions that [setLevels] binds on the instance under a level's
    name and aliases: the level each of them passes to [_format]. A
    level object is changed by [setLevels] only, which rebinds every
    name of every object it numbers, so the record kept under a name is
    the object as it is when the function is called. *)
Record CatLoggr : Type := mkCatLoggr {
  _shard : jsval;
  _shardLength : option Z;
  _levelName : option string;
  _levels : list LogLevel.t;
  _levelMap : gmap string LogLevel.t;
  _meta : MetaObj;
  _defaultMeta : MetaObj;
  _stdout : stream;
  _stderr : stream;
  _maxLength : option Z;
  _hooks : LogHooks.t;
  _bound : gmap string LogLevel.t
}.

Definition set_shard (v : jsval) (o : CatLoggr) : CatLoggr :=
  mkCatLoggr v (_shardLength o) (_levelName o) (_levels o) (_levelMap o)
    (_meta o) (_defaultMeta o) (_stdout o) (_stderr o) (_maxLength o)
    (_hooks o) (_bound o).
Definition set_shardLength (v : option Z) (o : CatLoggr) : CatLoggr :=
  mkCatLoggr (_shard o) v (_levelName o) (_levels o) (_levelMap o)
    (_meta o) (_defaultMeta o) (_stdout o) (_stderr o) (_maxLength o)
    (_hooks o) (_bound o).
Definition set_levelName (v : option string) (o : CatLoggr) : CatLoggr :=
  mkCatLoggr (_shard o) (_shardLength o) v (_levels o) (_levelMap o)
    (_meta o) (_defaultMeta o) (_stdout o) (_stderr o) (_maxLength o)
    (_hooks o) (_bound o).
Definition set_levels (v : list LogLevel.t) (o : CatLoggr) : CatLoggr :=
  mkCatLoggr (_shard o) (_shardLength o) (_levelName o) v (_levelMap o)
    (_meta o) (_defaultMeta o) (_stdout o) (_stderr o) (_maxLength o)
    (_hooks o) (_bound o).
Definition set_levelMap (v : gmap string LogLevel.t) (o : CatLoggr) : CatLoggr :=
  mkCatLoggr (_shard o) (_shardLength o) (_levelName o) (_levels o) v
    (_meta o) (_defaultMeta o) (_stdout o) (_stderr o) (_maxLength o)
    (_hooks o) (_bound o).
Definition set_meta (v : MetaObj) (o : CatLoggr) : CatLoggr :=
  mkCatLoggr (_shard o) (_shardLength o) (_levelName o) (_levels o)
    (_levelMap o) v (_defaultMeta o) (_stdout o) (_stderr o) (_maxLength o)
    (_hooks o) (_bound o).
Definition set_defaultMeta (v : MetaObj) (o : CatLoggr) : CatLoggr :=
  mkCatLoggr (_shard o) (_shardLength o) (_levelName o) (_levels o)
    (_levelMap o) (_meta o) v (_stdout o) (_stderr o) (_maxLength o)
    (_hooks o) (_bound o).
Definition set_stdout (v : stream) (o : CatLoggr) : CatLoggr :=
  mkCatLoggr (_shard o) (_shardLength o) (_levelName o) (_levels o)
    (_levelMap o) (_meta o) (_defaultMeta o) v (_stderr o) (_maxLength o)
    (_hooks o) (_bound o).
Definition set_stderr (v : stream) (o : CatLoggr) : CatLoggr :=
  mkCatLoggr (_shard o) (_shardLength o) (_levelName o) (_levels o)
    (_levelMap o) (_meta o) (_defaultMeta o) (_stdout o) v (_maxLength o)
    (_hooks o) (_bound o).
Definition set_maxLength (v : option Z) (o : CatLoggr) : CatLoggr :=
  mkCatLoggr (_shard o) (_shardLength o) (_levelName o) (_levels o)
    (_levelMap o) (_meta o) (_defaultMeta o) (_stdout o) (_stderr o) v
    (_hooks o) (_bound o).
Definition set_hooks (v : LogHooks.t) (o : CatLoggr) : CatLoggr :=
  mkCatLoggr (_shard o) (_shardLength o) (_levelName o) (_levels o)
    (_levelMap o) (_meta o) (_defaultMeta o) (_stdout o) (_stderr o)
    (_maxLength o) v (_bound o).
Definition set_bound (v : gmap string LogLevel.t) (o : CatLoggr) : CatLoggr :=
  mkCatLoggr (_shard o) (_shardLength o) (_levelName o) (_levels o)
    (_levelMap o) (_meta o) (_defaultMeta o) (_stdout o) (_stderr o)
    (_maxLength o) (_hooks o) v.

(** ** Effects: the logger, the history of events, and exceptions *)

Inductive JsError : Type :=
| TypeError (message : string)
| Error (message : string).

Inductive completion (A : Type) : Type :=
| Normal (a : A)
| Throw (e : JsError).
Arguments Normal {A} a.
Arguments Throw {A} e.

Record World : Type := mkWorld {
  self : CatLoggr;
  history : list event
}.

(** A computation reads and updates the logger and the history, and
    either returns or throws; what it changed before a throw stays. *)
Definition M (A : Type) : Type := World → completion A * World.

Definition run {A} (m : M A) (w : World) : completion A * World := m w.

#[global] Instance M_ret : MRet M := λ A a w, (Normal a, w).
#[global] Instance M_bind : MBind M := λ A B f m w,
  match m w with
  | (Normal a, w') => f a w'
  | (Throw e, w') => (Throw e, w')
  end.

Definition throw {A} (e : JsError) : M A := λ w, (Throw e, w).
Definition get_self : M CatLoggr := λ w, (Normal (self w), w).
Definition update (f : CatLoggr → CatLoggr) : M unit :=
  λ w, (Normal tt, mkWorld (f (self w)) (history w)).
Definition emit (e : event) : M unit :=
  λ w, (Normal tt, mkWorld (self w) (history w ++ [e])).
Definition get_history : M (list event) := λ w, (Normal (history w), w).

(** What a method hands back: the instance itself, for chaining, or
    [undefined]. *)
Inductive retval : Type :=
| This
| Undefined.

(** ** Property reads on [_levelMap] *)

(** The members every plain object inherits from [Object.prototype];
    each of them is a function or an object, hence truthy. *)
Definition Object_prototype_keys : list string :=
  [ "constructor"; "__defineGetter__"; "__defineSetter__"; "hasOwnProperty";
    "__lookupGetter__"; "__lookupSetter__"; "isPrototypeOf";
    "propertyIsEnumerable"; "toString"; "valueOf"; "__proto__";
    "toLocaleString" ].

Inductive lookup_result : Type :=
| Own (l : LogLevel.t)
| Inherited
| Missing.

(** [map[key]] on the plain object [map]. *)
Definition levelMap_get (map : gmap string LogLevel.t) (key : string)
  : lookup_result :=
  match map !! key with
  | Some l => Own l
  | None => if bool_decide (key ∈ Object_prototype_keys) then Inherited else Missing
  end.

Definition lookup_truthy (r : lookup_result) : bool :=
  match r with
  | Own _ | Inherited => true
  | Missing => false
  end.

(** A property key made of [_levelName], which is [undefined] until it is
    first assigned. *)
Definition property_key (name : option string) : string :=
  default "undefined" name.

(** [a > b] on two numbers of which either may be [undefined]. *)
Definition js_gt (a b : option Z) : bool :=
  match a, b with
  | Some x, Some y => (y <? x)%Z
  | _, _ => false
  end.

(** [levels.indexOf(l)]: the first index holding the object [l], -1 when
    there is none. *)
Fixpoint indexOf_from (i : Z) (levels : list LogLevel.t) (l : LogLevel.t) : Z :=
  match levels with
  | [] => (-1)%Z
  | x :: rest =>
      if (LogLevel.oid x =? LogLevel.oid l)%nat then i
      else indexOf_from (i + 1)%Z rest l
  end.
Definition indexOf (levels : list LogLevel.t) (l : LogLevel.t) : Z :=
  indexOf_from 0%Z levels l.

(** [' '.repeat(n)] *)
Fixpoint spaces (n : nat) : string :=
  match n with
  | O => ""
  | S k => String " "%char (spaces k)
  end.

(** [_centrePad(text, length)]; a [length] of [undefined] compares false
    and leaves the text as it is. *)
Definition _centrePad (text : string) (length : option Z) : string :=
  match length with
  | Some len =>
      let n := Z.of_nat (String.length text) in
      if (n <? len)%Z then
        spaces (Z.to_nat ((len - n) / 2)) +:+ text
          +:+ spaces (Z.to_nat ((len - n + 1) / 2))
      else text
  | None => text
  end.

(** The number of matches of [/%[sdifjoO]/g] in [s]. *)
Definition is_format_letter (c : Ascii.ascii) : bool :=
  bool_decide (c ∈ ["s"; "d"; "i"; "f"; "j"; "o"; "O"]%char).

Fixpoint count_formats (s : string) : nat :=
  match s with
  | EmptyString => 0
  | String c tl =>
      match tl with
      | String d rest =>
          if Ascii.eqb c "%"%char && is_format_letter d
          then S (count_formats rest)
          else count_formats tl
      | EmptyString => 0
      end
  end.

(** The arguments of [setLevels] and [setDefaultMeta], which check what
    they are given: an array of levels or any value that is not an
    array; a plain object or any other value. *)
Inductive levels_arg : Type :=
| LevelsArray (levels : list LogLevel.t)
| LevelsOther (v : scalar).

Inductive meta_arg : Type :=
| MetaObject (meta : MetaObj)
| MetaOther (v : scalar).

(** [new LogMeta(meta)]: the five options, each with its default when the
    property is [undefined]. *)
Definition or_default (v d : jsval) : jsval :=
  match v with
  | VUndefined => d
  | _ => v
  end.

Definition new_LogMeta (meta : MetaObj) : MetaObj :=
  {[ "depth" := or_default (prop meta "depth") (VNum 1);
     "color" := or_default (prop meta "color") (VBool true);
     "trace" := or_default (prop meta "trace") (VBool false);
     "shardId" := or_default (prop meta "shardId") (VStr "");
     "quote" := or_default (prop meta "quote") (VBool false) ]}.

(** [class LoggrConfig]; an option that is left out is [undefined]. *)
Module LoggrConfig.
Record t : Type := mk {
  shardId : jsval;
  shardLength : option Z;
  level : jsval;
  levels : option (list LogLevel.t);
  meta : option MetaObj;
  stdout : option stream;
  stderr : option stream
}.

(** [new LoggrConfig({})] *)
Definition empty : t := mk VUndefined None VUndefined None None None None.
End LoggrConfig.

(** ** The methods of [CatLoggr] *)

Section CatLoggr.
Context `{Host}.

(** [static get DefaultLevels()]; each read builds the eight objects. *)
Definition DefaultLevels : list LogLevel.t :=
  [ LogLevel.mk 0 "fatal" (chalk "red.bgBlack") true false [] None;
    LogLevel.mk 1 "error" (chalk "black.bgRed") true false [] None;
    LogLevel.mk 2 "warn" (chalk "black.bgYellow") true false [] None;
    LogLevel.mk 3 "trace" (chalk "green.bgBlack") false true [] None;
    LogLevel.mk 4 "init" (chalk "black.bgBlue") false false [] None;
    LogLevel.mk 5 "info" (chalk "black.bgGreen") false false [] None;
    LogLevel.mk 6 "verbose" (chalk "black.bgCyan") false false [] None;
    LogLevel.mk 7 "debug" (chalk "magenta.bgBlack") false false
      ["log"; "dir"] None ].

(** [addArgHook(func)] and [addPostHook(func)] *)
Definition addArgHook (func : hook_entry ArgHookParams) : M retval :=
  update (λ o, set_hooks
    (LogHooks.mk (LogHooks.arg (_hooks o) ++ [func]) (LogHooks.post (_hooks o))) o);;
  mret This.

Definition addPostHook (func : hook_entry PostHookParams) : M retval :=
  update (λ o, set_hooks
    (LogHooks.mk (LogHooks.arg (_hooks o)) (LogHooks.post (_hooks o) ++ [func])) o);;
  mret This.

(** [setDefaultMeta(meta)]. An opaque object is read as carrying none of
    the five options; destructuring [null] throws. *)
Definition setDefaultMeta (meta : meta_arg) : M retval :=
  match meta with
  | MetaObject m =>
      update (set_defaultMeta (new_LogMeta m));; mret This
  | MetaOther v =>
      if bool_decide (typeof_scalar v ≠ "object")
      then throw (TypeError "meta must be an object")
      else match v with
           | SNull => throw (TypeError "Cannot destructure 'object null'")
           | _ => update (set_defaultMeta (new_LogMeta ∅));; mret This
           end
  end.

(** [setLevel(level)] *)
Definition setLevel (level : jsval) : M retval :=
  if bool_decide (typeof level ≠ "string")
  then throw (TypeError "level must be a string")
  else
    let name := js_toString obj_toString level in
    o ← get_self;
    if negb (lookup_truthy (levelMap_get (_levelMap o) name))
    then throw (Error ("the level '" +:+ name +:+ "' does not exist"))
    else update (set_levelName (Some name));; mret This.

(** The callback that [setLevels] maps over the array: it numbers the
    level, enters it in [_levelMap] under its name, binds a level
    function under its name and under each alias, and keeps the longest
    name's length. [all] is the array being mapped. *)
Definition bind_aliases (l : LogLevel.t) (bound : gmap string LogLevel.t)
  : gmap string LogLevel.t :=
  foldl (λ b alias, <[alias := l]> b) bound (LogLevel.aliases l).

Definition setLevels_callback (all : list LogLevel.t) (max : nat)
  (l : LogLevel.t) : M (LogLevel.t * nat) :=
  let l' := LogLevel.set_position (Some (indexOf all l)) l in
  update (λ o, set_levelMap (<[LogLevel.name l' := l']> (_levelMap o)) o);;
  update (λ o, set_bound (<[LogLevel.name l' := l']> (_bound o)) o);;
  update (λ o, set_bound (bind_aliases l' (_bound o)) o);;
  let n := String.length (LogLevel.name l') in
  mret (l', if (max <? n)%nat then n else max).

Fixpoint setLevels_map (all todo : list LogLevel.t) (max : nat)
  : M (list LogLevel.t * nat) :=
  match todo with
  | [] => mret ([], max)
  | l :: rest =>
      '(l', max') ← setLevels_callback all max l;
      '(ls, max'') ← setLevels_map all rest max';
      mret (l' :: ls, max'')
  end.

(** [setLevels(levels)] *)
Definition setLevels (levels : levels_arg) : M retval :=
  match levels with
  | LevelsOther _ => throw (TypeError "levels must be an array.")
  | LevelsArray ls =>
      update (set_levelMap ∅);;
      update (set_levels ls);;
      '(ls', max) ← setLevels_map ls ls 0;
      update (set_levels ls');;
      o ← get_self;
      (if negb (lookup_truthy
                  (levelMap_get (_levelMap o) (property_key (_levelName o))))
       then match last (_levels o) with
            | Some l => update (set_levelName (Some (LogLevel.name l)))
            | None =>
                throw (TypeError "Cannot read properties of undefined (reading 'name')")
            end
       else mret tt);;
      update (set_maxLength (Some (Z.of_nat max + 2)%Z));;
      mret This
  end.

(** [get _level()] *)
Definition _level : M lookup_result :=
  o ← get_self;
  mret (levelMap_get (_levelMap o) (property_key (_levelName o))).

(** The timestamp a reading of the clock gives after the history [h]. *)
Definition timestamp_at (h : list event) : Timestamp :=
  let ts := moment_now (length (filter (λ e, is_now e = true) h)) in
  let formatted := moment_format ts in
  mkTimestamp ts (chalk "black.bgWhite" (" " +:+ formatted +:+ " ")) formatted.

(** [get _timestamp()]: one reading of the clock. *)
Definition _timestamp : M Timestamp :=
  h ← get_history;
  emit EvNow;;
  mret (timestamp_at h).

(** [meta(meta = {})] *)
Definition meta (meta : MetaObj) : M retval :=
  o ← get_self;
  let temp := Object_assign (Object_assign ∅ (_defaultMeta o)) meta in
  update (set_meta temp);;
  mret This.

(** The post-hook loop of [_write]: the entries that are functions are
    called in order, from index [i] on, until one returns something
    other than [undefined] and [null]; its text replaces [text]. *)
Fixpoint run_post_hooks (hooks : list (hook_entry PostHookParams)) (i : nat)
  (params : PostHookParams) (text : string) : M string :=
  match hooks with
  | [] => mret text
  | NotCallable :: rest => run_post_hooks rest (S i) params text
  | Callback hook :: rest =>
      emit (EvPostHook i params);;
      let res := hook params in
      if nullish res then run_post_hooks rest (S i) params text
      else mret (js_toString obj_toString res)
  end.

(** The level badge and the shard tag that [_write] puts before the
    text. *)
Definition levelStr (o : CatLoggr) (level : LogLevel.t) : string :=
  LogLevel.color level (_centrePad (LogLevel.name level) (_maxLength o)).

Definition shardText (o : CatLoggr) : string :=
  if truthy (_shard o)
  then chalk "black.bold.bgYellow"
         (_centrePad
            (if truthy (prop (_meta o) "shardId")
             then js_toString obj_toString (prop (_meta o) "shardId")
             else js_toString obj_toString (_shard o))
            (_shardLength o))
  else "".

(** The parameter object [_write] hands to every post-hook. *)
Definition post_params (o : CatLoggr) (level : LogLevel.t) (text : string)
  (timestamp : Timestamp) : PostHookParams :=
  mkPostHookParams text (raw timestamp) (formattedRaw timestamp)
    (if truthy (_shard o)
     then Some (js_toString obj_toString (_shard o)) else None)
    (LogLevel.name level) (LogLevel.err level).

(** [_write(level, text, err, timestamp?)] *)
Definition _write (level : LogLevel.t) (text : string) (err : bool)
  (timestamp : option Timestamp) : M retval :=
  timestamp ← match timestamp with
               | Some t => mret t
               | None => _timestamp
               end;
  o ← get_self;
  let stream := if err then _stderr o else _stdout o in
  text ← run_post_hooks (LogHooks.post (_hooks o)) 0
           (post_params o level text timestamp) text;
  emit (EvWrite stream
          (shardText o +:+ formatted timestamp +:+ levelStr o level
             +:+ " " +:+ text +:+ LF));;
  update (set_meta ∅);;
  mret This.

(** The template step of [_format]: a first argument that is a string
    with [n > 0] placeholders is replaced, together with the [n]
    arguments after it, by [util.format] of them. *)
Definition expand_template (args : list jsval) : list jsval :=
  match args with
  | VStr s :: rest =>
      let n := count_formats s in
      if (n =? 0)%nat then args
      else VStr (util_format s (take n rest)) :: drop n rest
  | _ => args
  end.

(** What a hook's result adds to [text]: [text.push(...res)] for an
    array, [text.push(res)] otherwise. *)
Definition pushed (res : jsval) : list jsval :=
  match res with
  | VArr elements => elements
  | _ => [res]
  end.

(** The arg-hook loop for one argument: [Some] of what was pushed on
    [text] when a hook finished the argument, [None] otherwise. *)
Fixpoint run_arg_hooks (hooks : list (hook_entry ArgHookParams)) (i : nat)
  (arg : jsval) (date : Z) : M (option (list jsval)) :=
  match hooks with
  | [] => mret None
  | NotCallable :: rest => run_arg_hooks rest (S i) arg date
  | Callback hook :: rest =>
      emit (EvArgHook i (mkArgHookParams arg date));;
      let res := hook (mkArgHookParams arg date) in
      if nullish res then run_arg_hooks rest (S i) arg date
      else mret (Some (pushed res))
  end.

(** [arg instanceof Error] *)
Definition is_Error (arg : jsval) : bool :=
  match arg with
  | VObj o => instanceof_Error o
  | _ => false
  end.

Definition Error_stack_of (arg : jsval) : string :=
  match arg with
  | VObj o => stack_of o
  | _ => "undefined"
  end.

(** The built-in rules of [_format] for one argument, by [typeof]. *)
Definition format_builtin (meta : MetaObj) (arg : jsval) : list jsval :=
  if bool_decide (typeof arg = "string") then
    let s := js_toString obj_toString arg in
    [VStr (chalk "magenta"
             (if truthy (prop meta "quote") then "'" +:+ s +:+ "'" else s))]
  else if bool_decide (typeof arg = "number") then
    [VStr (chalk "cyan" (js_toString obj_toString arg))]
  else if bool_decide (typeof arg = "object") then
    [VStr LF;
     if is_Error arg then VStr (chalk "red" (Error_stack_of arg))
     else VStr (util_inspect arg meta)]
  else [arg].

(** The body of the loop over the arguments: what one argument adds to
    [text]. *)
Definition format_arg (arg : jsval) (date : Z) : M (list jsval) :=
  o ← get_self;
  res ← run_arg_hooks (LogHooks.arg (_hooks o)) 0 arg date;
  match res with
  | Some fragments => mret fragments
  | None => o ← get_self; mret (format_builtin (_meta o) arg)
  end.

Fixpoint format_args (args : list jsval) (date : Z) (text : list jsval)
  : M (list jsval) :=
  match args with
  | [] => mret text
  | arg :: rest =>
      fragments ← format_arg arg date;
      format_args rest date (text ++ fragments)
  end.

(** The text [_format] makes of the fragments: joined by spaces, then
    the stack when the level or the meta asks for one, then the error
    colour when the level is an error level. *)
Definition assemble (o : CatLoggr) (level : LogLevel.t) (text : list jsval)
  : string :=
  let output := Array_join obj_toString " " text in
  let output :=
    if LogLevel.trace level || truthy (prop (_meta o) "trace")
    then output +:+ LF +:+ drop_first_line Error_stack
    else output in
  if LogLevel.err level then chalk "red" output else output.

(** [_format(level, ...args)] *)
Definition _format (level : LogLevel.t) (args : list jsval) : M retval :=
  timestamp ← _timestamp;
  active ← _level;
  active_position ←
    match active with
    | Own a => mret (LogLevel.position a)
    | Inherited => mret None
    | Missing =>
        throw (TypeError "Cannot read properties of undefined (reading 'position')")
    end;
  if js_gt (LogLevel.position level) active_position then mret Undefined
  else
    let args := expand_template args in
    text ← format_args args (raw timestamp) [];
    o ← get_self;
    _write level (assemble o level text) (LogLevel.err level) None;;
    meta ∅.

(** [this[name](...args)]: a call of the level function bound under
    [name]. *)
Definition call (name : string) (args : list jsval) : M retval :=
  o ← get_self;
  match _bound o !! name with
  | Some l => _format l args
  | None => throw (TypeError ("this." +:+ name +:+ " is not a function"))
  end.

(** The instance before the constructor has assigned anything: every
    field that is read before it is written is [undefined]. *)
Definition blank : CatLoggr :=
  mkCatLoggr VUndefined None None [] ∅ ∅ ∅ process_stdout process_stderr None
    (LogHooks.mk [] []) ∅.

(** [constructor(config?)] *)
Definition constructor (config : option LoggrConfig.t) : M unit :=
  let config := default LoggrConfig.empty config in
  (if truthy (LoggrConfig.shardId config)
   then update (set_shard (LoggrConfig.shardId config));;
        update (set_shardLength (LoggrConfig.shardLength config))
   else mret tt);;
  update (set_stdout (default process_stdout (LoggrConfig.stdout config)));;
  update (set_stderr (default process_stderr (LoggrConfig.stderr config)));;
  setLevels (LevelsArray (default DefaultLevels (LoggrConfig.levels config)));;
  o ← get_self;
  level ← (if truthy (LoggrConfig.level config)
           then mret (LoggrConfig.level config)
           else match last (_levels o) with
                | Some l => mret (VStr (LogLevel.name l))
                | None =>
                    throw (TypeError "Cannot read properties of undefined (reading 'name')")
                end);
  setLevel level;;
  setDefaultMeta (MetaObject (default ∅ (LoggrConfig.meta config)));;
  update (set_meta ∅);;
  update (set_hooks (LogHooks.mk [] []));;
  mret tt.

(** [new CatLoggr(config)], in a world with the history [h]. *)
Definition new_CatLoggr (config : option LoggrConfig.t) (h : list event)
  : completion unit * World :=
  run (constructor config) (mkWorld blank h).

End CatLoggr.

(** ** The JavaScript variant: meta objects

    The second class of the source file ([module.exports = class
    CatLoggr]) differs from the TypeScript one in how it keeps its meta
    objects: [meta()] assigns into the object [_defaultMeta] refers to
    and makes [_meta] refer to the same object, and [_write] does not
    clear [_meta]. The objects therefore live in a store, and the two
    fields are references into it. Only this part of the class is
    embedded; the guard of [setDefaultMeta] on a non-object argument is
    as in the TypeScript class. *)
Module Legacy.
Record CatLoggr : Type := mk {
  store : gmap nat MetaObj;
  next : nat;
  _defaultMeta : nat;
  _meta : nat
}.

(** The object a reference points to. *)
Definition deref (o : CatLoggr) (ref : nat) : MetaObj :=
  default ∅ (store o !! ref).

(** A new object with the given properties. *)
Definition alloc (obj : MetaObj) (o : CatLoggr) : nat * CatLoggr :=
  (next o, mk (<[next o := obj]> (store o)) (S (next o)) (_defaultMeta o) (_meta o)).

(** [setDefaultMeta(meta)] *)
Definition setDefaultMeta (meta : MetaObj) (o : CatLoggr) : CatLoggr :=
  let '(temp, o) :=
    alloc {[ "depth" := VNum 1; "color" := VBool true; "trace" := VBool false ]} o in
  let o := mk (<[temp := Object_assign (deref o temp) meta]> (store o))
             (next o) (_defaultMeta o) (_meta o) in
  mk (store o) (next o) temp (_meta o).

(** [meta(meta = {})] *)
Definition meta (meta : MetaObj) (o : CatLoggr) : CatLoggr :=
  let temp := _defaultMeta o in
  let o := mk (<[temp := Object_assign (deref o temp) meta]> (store o))
             (next o) (_defaultMeta o) (_meta o) in
  mk (store o) (next o) (_defaultMeta o) temp.

(** What the constructor does to the meta objects:
    [this.setDefaultMeta(meta || {}); this._meta = {};] *)
Definition constructor (meta : option MetaObj) : CatLoggr :=
  let o := setDefaultMeta (default ∅ meta) (mk ∅ 0 0 0) in
  let '(empty, o) := alloc ∅ o in
  mk (store o) (next o) (_defaultMeta o) empty.

(** What a call that is written does to the meta objects: [_format]
    ends with [this._write(...).meta()], and [_write] leaves [_meta]. *)
Definition written (o : CatLoggr) : CatLoggr := meta ∅ o.

(** The options the stored defaults and the next call resolve to. *)
Definition defaults (o : CatLoggr) : MetaObj := deref o (_defaultMeta o).
Definition pending (o : CatLoggr) : MetaObj := deref o (_meta o).
End Legacy.

(** ** A host for evaluating the logger

    Colours leave the text as it is, the clock stands at 0 and prints
    as [01/01 00:00:00]. *)
Module PlainHost.
#[export] Instance host : Host := {|
  chalk := λ _ text, text;
  util_inspect := λ _ _, "{}";
  util_format := λ s _, s;
  moment_now := λ _, 0%Z;
  moment_format := λ _, "01/01 00:00:00";
  Error_stack := "Error";
  obj_toString := λ _, "[object Object]";
  instanceof_Error := λ _, false;
  stack_of := λ _, "Error"
|}.

(** [new CatLoggr()] *)
Definition default_logger : World := (new_CatLoggr None []).2.

(** [new CatLoggr({ level: 'warn' })] *)
Definition warn_logger : World :=
  (new_CatLoggr
     (Some (LoggrConfig.mk VUndefined None (VStr "warn") None None None None))
     []).2.

(** [new CatLoggr({ shardId: 1 })] *)
Definition shard_logger : World :=
  (new_CatLoggr
     (Some (LoggrConfig.mk (VNum 1) None VUndefined None None None None))
     []).2.

(** Four of the default levels, as [setLevels] has numbered them. *)
Definition info_level : LogLevel.t :=
  LogLevel.mk 5 "info" (chalk "black.bgGreen") false false [] (Some 5%Z).
Definition warn_level : LogLevel.t :=
  LogLevel.mk 2 "warn" (chalk "black.bgYellow") true false [] (Some 2%Z).
Definition fatal_level : LogLevel.t :=
  LogLevel.mk 0 "fatal" (chalk "red.bgBlack") true false [] (Some 0%Z).
Definition debug_level : LogLevel.t :=
  LogLevel.mk 7 "debug" (chalk "magenta.bgBlack") false false ["log"; "dir"]
    (Some 7%Z).

(** Three arg-hooks: one that declines, one that answers with an array,
    one that would answer with a string. *)
Definition three_arg_hooks : World :=
  (run (addArgHook (Callback (λ _, VNull));;
        addArgHook (Callback (λ _, VArr [VStr "x"; VStr "y"]));;
        addArgHook (Callback (λ _, VStr "never")))
     default_logger).2.


(** Two post-hooks: one that declines and one that answers. *)
Definition two_post_hooks : World :=
  (run (addPostHook (Callback (λ _, VUndefined));;
        addPostHook (Callback (λ _, VStr "fixed")))
     default_logger).2.
End PlainHost.

(** ** The JavaScript variant: the shard tag

    The constructor of the JavaScript class gives [shardLength] the
    default 4 and writes a number below 10 with a leading zero; its
    [_write] pads the shard and knows no per-call override. *)
Module LegacyShard.
Record t : Type := mk {
  _shard : jsval;
  _shardLength : option Z
}.

(** The part of the constructor that stores the shard:
    [constructor({ shardId, shardLength = 4, ... } = {})]. *)
Definition constructor (shardId : jsval) (shardLength : option Z) : t :=
  let shardLength := default 4%Z shardLength in
  if truthy shardId then
    let o := mk shardId (Some shardLength) in
    match _shard o with
    | VNum n =>
        if (n <? 10)%Z then mk (VStr ("0" +:+ pretty n)) (_shardLength o) else o
    | _ => o
    end
  else mk VUndefined None.

(** [shardText] as [_write] computes it. *)
Definition shardText `{Host} (o : t) : string :=
  if truthy (_shard o)
  then chalk "black.bold.bgYellow"
         (_centrePad (js_toString obj_toString (_shard o)) (_shardLength o))
  else "".
End LegacyShard.

(** ** Notions for stating what the registry and the meta hold *)

(** The level [l] as [setLevels] leaves it: numbered by its first index
    in the array. *)
Definition numbered (all : list LogLevel.t) (l : LogLevel.t) : LogLevel.t :=
  LogLevel.set_position (Some (indexOf all l)) l.

(** The length of the longest name, [max] at least. *)
Definition longest_name (longest : nat) (ls : list LogLevel.t) : nat :=
  foldl (λ m l, Nat.max m (String.length (LogLevel.name l))) longest ls.

(** [k] is the name or an alias of [l]. *)
Definition names (l : LogLevel.t) (k : string) : Prop :=
  k = LogLevel.name l ∨ k ∈ LogLevel.aliases l.

(** The fields [setLevels] and [setLevel] do not touch. *)
Definition same_elsewhere (o o' : CatLoggr) : Prop :=
  _shard o' = _shard o ∧ _shardLength o' = _shardLength o
  ∧ _meta o' = _meta o ∧ _defaultMeta o' = _defaultMeta o
  ∧ _stdout o' = _stdout o ∧ _stderr o' = _stderr o ∧ _hooks o' = _hooks o.

(** The options [new LogMeta] knows, with their defaults. *)
Definition LogMeta_defaults : list (string * jsval) :=
  [ ("depth", VNum 1); ("color", VBool true); ("trace", VBool false);
    ("shardId", VStr ""); ("quote", VBool false) ].

(** ** Inputs for evaluating the registry and the constructor *)
Module Examples.
Import PlainHost.

(** [[{ name: 'catnip', ... }, { name: 'fish', aliases: ['trout'], ... }]] *)
Definition catnip : LogLevel.t :=
  LogLevel.mk 10 "catnip" (chalk "red.bgBlack") false false [] None.
Definition fish : LogLevel.t :=
  LogLevel.mk 11 "fish" (chalk "black.bgRed") true false ["trout"] None.
Definition two_levels : list LogLevel.t := [catnip; fish].

(** [{ level: 'warn' }], [{ level: 'catnip' }] and [{ shardId: 0 }] *)
Definition warn_config : LoggrConfig.t :=
  LoggrConfig.mk VUndefined None (VStr "warn") None None None None.
Definition shard0_config : LoggrConfig.t :=
  LoggrConfig.mk (VNum 0) (Some 4%Z) VUndefined None None None None.

(** A logger with one post-hook, which declines. *)
Definition one_declining_post_hook : World :=
  (run (addPostHook (Callback (λ _, VNull))) default_logger).2.
End Examples.

(** * Properties *)

(** ** The effect monad *)

Lemma run_bind {A B} (m : M A) (f : A → M B) (w : World) :
  run (m ≫= f) w =
  match run m w with
  | (Normal a, w') => run (f a) w'
  | (Throw e, w') => (Throw e, w')
  end.
Proof. reflexivity. Qed.

Lemma run_ret {A} (a : A) (w : World) : run (mret a) w = (Normal a, w).
Proof. reflexivity. Qed.

(** Unfolds the primitive computations at the head of a goal. *)
Ltac run_prims :=
  unfold run, mbind, M_bind, mret, M_ret, emit, update, get_self,
    get_history, throw in *; cbn.

Lemma run_get_self (w : World) : run get_self w = (Normal (self w), w).
Proof. reflexivity. Qed.
Lemma run_get_history (w : World) : run get_history w = (Normal (history w), w).
Proof. reflexivity. Qed.
Lemma run_update (f : CatLoggr → CatLoggr) (w : World) :
  run (update f) w = (Normal tt, mkWorld (f (self w)) (history w)).
Proof. reflexivity. Qed.
Lemma run_emit (e : event) (w : World) :
  run (emit e) w = (Normal tt, mkWorld (self w) (history w ++ [e])).
Proof. reflexivity. Qed.
Lemma run_throw {A} (e : JsError) (w : World) : run (throw e) w = (@Throw A e, w).
Proof. reflexivity. Qed.

(** Runs the primitive computations at the head of a sequence. *)
Ltac run_steps :=
  repeat (rewrite ?run_bind, ?run_ret, ?run_get_self, ?run_get_history,
            ?run_update, ?run_emit, ?run_throw;
          cbn [self history fst snd]).

Lemma world_eta (w : World) : mkWorld (self w) (history w) = w.
Proof. by destruct w. Qed.

Lemma world_no_events (w : World) : mkWorld (self w) (history w ++ []) = w.
Proof. rewrite app_nil_r. apply world_eta. Qed.

(** ** Which hooks a loop calls *)

Lemma hook_calls_app {P} (ev : nat → P → event) i (l1 l2 : list (hook_entry P)) p :
  hook_calls ev i (l1 ++ l2) p =
  hook_calls ev i l1 p ++ hook_calls ev (i + length l1) l2 p.
Proof.
  revert i. induction l1 as [|[f|] l1 IH]; intros i; simpl.
  - by rewrite Nat.add_0_r.
  - rewrite IH. do 3 f_equal. lia.
  - rewrite IH. do 2 f_equal. lia.
Qed.

Lemma writes_app (h1 h2 : list event) : writes (h1 ++ h2) = writes h1 ++ writes h2.
Proof. apply omap_app. Qed.
Lemma arg_hook_calls_app (h1 h2 : list event) :
  arg_hook_calls (h1 ++ h2) = arg_hook_calls h1 ++ arg_hook_calls h2.
Proof. apply omap_app. Qed.
Lemma post_hook_calls_app (h1 h2 : list event) :
  post_hook_calls (h1 ++ h2) = post_hook_calls h1 ++ post_hook_calls h2.
Proof. apply omap_app. Qed.

Lemma hook_calls_arg_quiet i (hooks : list (hook_entry ArgHookParams)) p :
  writes (hook_calls EvArgHook i hooks p) = [] ∧
  post_hook_calls (hook_calls EvArgHook i hooks p) = [].
Proof.
  revert i. induction hooks as [|[f|] hooks IH]; intros i; simpl; auto.
Qed.

Lemma hook_calls_post_quiet i (hooks : list (hook_entry PostHookParams)) p :
  writes (hook_calls EvPostHook i hooks p) = [] ∧
  arg_hook_calls (hook_calls EvPostHook i hooks p) = [].
Proof.
  revert i. induction hooks as [|[f|] hooks IH]; intros i; simpl; auto.
Qed.

Section properties.
Context `{Host}.

(** The arg-hook loop walks over the entries that decline. *)
Lemma run_arg_hooks_declined pre rest i arg date w :
  Forall (declines (mkArgHookParams arg date)) pre →
  run (run_arg_hooks (pre ++ rest) i arg date) w =
  run (run_arg_hooks rest (i + length pre) arg date)
    (mkWorld (self w)
       (history w ++ hook_calls EvArgHook i pre (mkArgHookParams arg date))).
Proof.
  intros Hpre. revert i w.
  induction Hpre as [|[f|] pre Hf Hpre IH]; intros i w; simpl.
  - by rewrite Nat.add_0_r, world_no_events.
  - simpl in Hf. run_prims. rewrite Hf, IH. cbn.
    rewrite <- app_assoc.
    by replace (i + S (length pre)) with (S i + length pre) by lia.
  - run_prims. rewrite IH.
    by replace (i + S (length pre)) with (S i + length pre) by lia.
Qed.

Lemma run_post_hooks_declined pre rest i params text w :
  Forall (declines params) pre →
  run (run_post_hooks (pre ++ rest) i params text) w =
  run (run_post_hooks rest (i + length pre) params text)
    (mkWorld (self w) (history w ++ hook_calls EvPostHook i pre params)).
Proof.
  intros Hpre. revert i w.
  induction Hpre as [|[f|] pre Hf Hpre IH]; intros i w; simpl.
  - by rewrite Nat.add_0_r, world_no_events.
  - simpl in Hf. run_prims. rewrite Hf, IH. cbn.
    rewrite <- app_assoc.
    by replace (i + S (length pre)) with (S i + length pre) by lia.
  - run_prims. rewrite IH.
    by replace (i + S (length pre)) with (S i + length pre) by lia.
Qed.






(** C7. In [_write], which [_format] runs once with the assembled text
    of a call that is not filtered ([_format_assembles_then_writes]
    below), the post-hooks are tried in
    registration order, each with that text. The first one whose result
    is neither [undefined] nor [null] ends the loop: the hooks before it
    that are functions, and it, are the only ones called, and the line
    written has the text of its result in place of the assembled text;
    a string result is written as it is. *)
Theorem post_hook_first_result_replaces (level : LogLevel.t) (text : string)
  (err : bool) (timestamp : option Timestamp) (w : World)
  (pre rest : list (hook_entry PostHookParams)) (hook : PostHookParams → jsval) :
  let o := self w in
  let ts := default (timestamp_at (history w)) timestamp in
  let read := match timestamp with Some _ => [] | None => [EvNow] end in
  let params := post_params o level text ts in
  LogHooks.post (_hooks o) = pre ++ Callback hook :: rest →
  Forall (declines params) pre →
  nullish (hook params) = false →
  run (_write level text err timestamp) w =
  (Normal This,
   mkWorld (set_meta ∅ o)
     (history w ++ read ++ hook_calls EvPostHook 0 pre params
        ++ [EvPostHook (length pre) params;
            EvWrite (if err then _stderr o else _stdout o)
              (shardText o +:+ formatted ts +:+ levelStr o level +:+ " "
                 +:+ js_toString obj_toString (hook params) +:+ LF)]))
  ∧ (∀ s, hook params = VStr s → js_toString obj_toString (hook params) = s).
Proof.
  intros o ts read params Hhooks Hpre Hres. split.
  - unfold _write. rewrite run_bind.
    assert (run match timestamp with
                | Some t => mret t
                | None => _timestamp
                end w = (Normal ts, mkWorld o (history w ++ read))) as ->.
    { subst o ts read. destruct timestamp; simpl.
      - by rewrite run_ret, world_no_events.
      - unfold _timestamp. by run_steps. }
    run_steps. fold o. rewrite Hhooks.
    rewrite run_post_hooks_declined by done.
    cbn [run_post_hooks]. run_steps. fold params. rewrite Hres.
    run_steps. by rewrite <- !app_assoc.
  - by intros s ->.
Qed.

(** ** What a call leaves in the history *)

Lemma run_arg_hooks_quiet hooks i arg date w :
  ∃ res evs,
    run (run_arg_hooks hooks i arg date) w =
      (Normal res, mkWorld (self w) (history w ++ evs))
    ∧ writes evs = [] ∧ post_hook_calls evs = [].
Proof.
  revert i w. induction hooks as [|[f|] hooks IH]; intros i w; cbn [run_arg_hooks].
  - exists None, []. by rewrite run_ret, world_no_events.
  - run_steps.
    destruct (nullish (f (mkArgHookParams arg date))).
    + destruct (IH (S i) (mkWorld (self w)
        (history w ++ [EvArgHook i (mkArgHookParams arg date)])))
        as (res & evs & -> & Hw & Hp).
      exists res, (EvArgHook i (mkArgHookParams arg date) :: evs).
      cbn [self history]. rewrite <- app_assoc. by cbn.
    + eexists _, [_]. by run_steps.
  - apply IH.
Qed.

Lemma format_arg_quiet arg date w :
  ∃ fragments evs,
    run (format_arg arg date) w =
      (Normal fragments, mkWorld (self w) (history w ++ evs))
    ∧ writes evs = [] ∧ post_hook_calls evs = [].
Proof.
  unfold format_arg. run_steps.
  destruct (run_arg_hooks_quiet (LogHooks.arg (_hooks (self w))) 0 arg date w)
    as ([fragments|] & evs & -> & Hw & Hp); run_steps; eauto.
Qed.

Lemma format_args_quiet args date text w :
  ∃ text' evs,
    run (format_args args date text) w =
      (Normal text', mkWorld (self w) (history w ++ evs))
    ∧ writes evs = [] ∧ post_hook_calls evs = [].
Proof.
  revert text w. induction args as [|arg args IH]; intros text w; cbn [format_args].
  - exists text, []. by rewrite run_ret, world_no_events.
  - rewrite run_bind.
    destruct (format_arg_quiet arg date w) as (fragments & evs & -> & Hw & Hp).
    destruct (IH (text ++ fragments) (mkWorld (self w) (history w ++ evs)))
      as (text' & evs' & -> & Hw' & Hp').
    exists text', (evs ++ evs'). cbn [self history].
    by rewrite <- app_assoc, writes_app, post_hook_calls_app, Hw, Hw', Hp, Hp'.
Qed.

Lemma run_post_hooks_quiet hooks i params text w :
  ∃ text' evs,
    run (run_post_hooks hooks i params text) w =
      (Normal text', mkWorld (self w) (history w ++ evs))
    ∧ writes evs = [] ∧ arg_hook_calls evs = [].
Proof.
  revert i w. induction hooks as [|[f|] hooks IH]; intros i w; cbn [run_post_hooks].
  - exists text, []. by rewrite run_ret, world_no_events.
  - run_steps.
    destruct (nullish (f params)).
    + destruct (IH (S i) (mkWorld (self w) (history w ++ [EvPostHook i params])))
        as (text' & evs & -> & Hw & Hp).
      exists text', (EvPostHook i params :: evs).
      cbn [self history]. rewrite <- app_assoc. by cbn.
    + eexists _, [_]. by run_steps.
  - apply IH.
Qed.

(** [_write] always ends in one write, to the stream [err] selects, and
    clears [_meta]. *)
Lemma _write_writes_once level text err timestamp w :
  ∃ chunk evs,
    run (_write level text err timestamp) w =
      (Normal This,
       mkWorld (set_meta ∅ (self w))
         (history w ++ evs
            ++ [EvWrite (if err then _stderr (self w) else _stdout (self w)) chunk]))
    ∧ writes evs = [] ∧ arg_hook_calls evs = [].
Proof.
  unfold _write. rewrite run_bind.
  assert (∃ ts read,
    run match timestamp with
        | Some t => mret t
        | None => _timestamp
        end w = (Normal ts, mkWorld (self w) (history w ++ read))
    ∧ writes read = [] ∧ arg_hook_calls read = []) as (ts & read & -> & Hw & Ha).
  { destruct timestamp as [t|].
    - exists t, []. by rewrite run_ret, world_no_events.
    - eexists _, [EvNow]. unfold _timestamp. by run_steps. }
  run_steps.
  destruct (run_post_hooks_quiet (LogHooks.post (_hooks (self w))) 0
              (post_params (self w) level text ts) text
              (mkWorld (self w) (history w ++ read)))
    as (text' & evs & -> & Hw' & Ha').
  run_steps. eexists _, (read ++ evs).
  rewrite <- !app_assoc, writes_app, arg_hook_calls_app, Hw, Hw', Ha, Ha'. done.
Qed.

(** A call above the threshold stops after reading the clock, and hands
    back [undefined]. *)
Lemma _format_filtered level active args w :
  levelMap_get (_levelMap (self w)) (property_key (_levelName (self w)))
    = Own active →
  js_gt (LogLevel.position level) (LogLevel.position active) = true →
  run (_format level args) w =
    (Normal Undefined, mkWorld (self w) (history w ++ [EvNow])).
Proof.
  intros Hactive Hgt. unfold _format, _timestamp, _level. run_steps.
  rewrite Hactive. run_steps. by rewrite Hgt.
Qed.

(** A call at or below the threshold reads the clock, formats its
    arguments, which calls no post-hook and writes nothing, and then
    runs [_write] once, on the assembled text, and [meta()]. *)
Lemma _format_assembles_then_writes level active args w :
  levelMap_get (_levelMap (self w)) (property_key (_levelName (self w)))
    = Own active →
  js_gt (LogLevel.position level) (LogLevel.position active) = false →
  ∃ text evs,
    run (_format level args) w =
      run (_write level (assemble (self w) level text) (LogLevel.err level) None;;
           meta ∅)
        (mkWorld (self w) (history w ++ [EvNow] ++ evs))
    ∧ writes evs = [] ∧ post_hook_calls evs = [].
Proof.
  intros Hactive Hgt. unfold _format, _timestamp, _level. run_steps.
  rewrite Hactive. run_steps. rewrite Hgt.
  rewrite run_bind.
  destruct (format_args_quiet (expand_template args)
              (raw (timestamp_at (history w))) []
              (mkWorld (self w) (history w ++ [EvNow])))
    as (text & evs & -> & Hw & Hp).
  run_steps. exists text, evs. by rewrite <- app_assoc.
Qed.

(** A call at or below the threshold goes through [_write] once. *)
Lemma _format_passed level active args w :
  levelMap_get (_levelMap (self w)) (property_key (_levelName (self w)))
    = Own active →
  js_gt (LogLevel.position level) (LogLevel.position active) = false →
  ∃ chunk before,
    run (_format level args) w =
      (Normal This,
       mkWorld (set_meta (Object_assign (Object_assign ∅ (_defaultMeta (self w))) ∅)
                  (set_meta ∅ (self w)))
         (history w ++ before
            ++ [EvWrite (if LogLevel.err level then _stderr (self w)
                         else _stdout (self w)) chunk]))
    ∧ writes before = [].
Proof.
  intros Hactive Hgt. unfold _format, _timestamp, _level. run_steps.
  rewrite Hactive. run_steps. rewrite Hgt.
  rewrite run_bind.
  destruct (format_args_quiet (expand_template args)
              (raw (timestamp_at (history w))) []
              (mkWorld (self w) (history w ++ [EvNow])))
    as (text & evs & -> & Hw & _).
  run_steps.
  destruct (_write_writes_once level (assemble (self w) level text)
              (LogLevel.err level) None
              (mkWorld (self w) ((history w ++ [EvNow]) ++ evs)))
    as (chunk & evs' & -> & Hw' & _).
  unfold meta. run_steps.
  exists chunk, ([EvNow] ++ evs ++ evs'). split.
  - by rewrite <- !app_assoc.
  - by rewrite !writes_app, Hw, Hw'.
Qed.

(** C1. A call of a level function whose level has a position strictly
    greater than the position of the active level writes nothing and
    calls no arg-hook and no post-hook; a call whose level has a
    position less than or equal to it returns and writes exactly one
    chunk. *)
Theorem threshold_filters_calls (name : string) (level active : LogLevel.t)
  (p q : Z) (args : list jsval) (w : World) :
  _bound (self w) !! name = Some level →
  run _level w = (Normal (Own active), w) →
  LogLevel.position level = Some p →
  LogLevel.position active = Some q →
  let r := run (call name args) w in
  ((q < p)%Z →
     writes (history r.2) = writes (history w)
     ∧ arg_hook_calls (history r.2) = arg_hook_calls (history w)
     ∧ post_hook_calls (history r.2) = post_hook_calls (history w))
  ∧ ((p ≤ q)%Z →
     r.1 = Normal This
     ∧ ∃ s chunk, writes (history r.2) = writes (history w) ++ [(s, chunk)]).
Proof.
  intros Hbound Hlevel Hp Hq r.
  assert (levelMap_get (_levelMap (self w)) (property_key (_levelName (self w)))
            = Own active) as Hactive.
  { unfold _level in Hlevel. revert Hlevel. run_steps. congruence. }
  assert (r = run (_format level args) w) as ->.
  { subst r. unfold call. run_steps. by rewrite Hbound. }
  split; intros Hle.
  - rewrite (_format_filtered level active) by
      (try done; rewrite Hp, Hq; cbn; by apply Z.ltb_lt).
    cbn [snd history].
    by rewrite writes_app, arg_hook_calls_app, post_hook_calls_app, !app_nil_r.
  - destruct (_format_passed level active args w) as (chunk & before & -> & Hw).
    { done. }
    { rewrite Hp, Hq. cbn. by apply Z.ltb_ge. }
    split; [done|]. cbn [snd history].
    eexists _, chunk. by rewrite !writes_app, Hw.
Qed.

End properties.

(** ** The level registry *)

Section registry.
Context `{Host}.

(** What the mapping of [setLevels] leaves behind: every level of the
    array is in [_levelMap] under its name, nothing else is added, and
    the threshold, the history and the other fields are as before. *)
Lemma setLevels_map_spec all todo max w :
  ∃ ls max' o',
    run (setLevels_map all todo max) w = (Normal (ls, max'), mkWorld o' (history w))
    ∧ (∀ s, is_Some (_levelMap o' !! s) ↔
            is_Some (_levelMap (self w) !! s) ∨ s ∈ map LogLevel.name todo)
    ∧ _levelName o' = _levelName (self w)
    ∧ length ls = length todo
    ∧ map LogLevel.name ls = map LogLevel.name todo.
Proof.
  revert max w. induction todo as [|l todo IH]; intros max w; cbn [setLevels_map].
  - exists [], max, (self w). rewrite run_ret, world_eta.
    split_and!; try done. intros s. rewrite elem_of_nil. tauto.
  - unfold setLevels_callback. run_steps.
    set (l' := LogLevel.set_position (Some (indexOf all l)) l).
    set (max1 := if (max <? String.length (LogLevel.name l'))%nat
                 then String.length (LogLevel.name l') else max).
    match goal with |- context [run (setLevels_map all todo max1) ?w1] =>
      destruct (IH max1 w1) as (ls & max' & o' & -> & Hmap & Hname & Hlen & Hnames)
    end.
    run_steps. exists (l' :: ls), max', o'.
    split_and!; try done.
    + intros s. rewrite Hmap. subst l'. unfold set_bound, set_levelMap. cbn.
      rewrite elem_of_cons, lookup_insert_is_Some.
      destruct (decide (LogLevel.name l = s)); intuition congruence.
    + cbn. by rewrite Hlen.
    + cbn. by rewrite Hnames.
Qed.

(** After [setLevels] has returned, the keys of [_levelMap] are the
    names of the levels of the array: an alias is not a key. *)
Lemma setLevels_levelMap_names ls w w' :
  run (setLevels (LevelsArray ls)) w = (Normal This, w') →
  ∀ s, is_Some (_levelMap (self w') !! s) ↔ s ∈ map LogLevel.name ls.
Proof.
  unfold setLevels. run_steps.
  match goal with |- context [run (setLevels_map ls ls 0) ?w1] =>
    destruct (setLevels_map_spec ls ls 0 w1)
      as (ls' & max' & o' & -> & Hmap & Hname & Hlen & Hnames)
  end.
  run_steps. intros Hrun s.
  assert (_levelMap (self w') = _levelMap o') as ->.
  { destruct (lookup_truthy _); cbn in Hrun.
    - revert Hrun. run_steps. by intros [= <-].
    - destruct (last ls'); revert Hrun; run_steps; [by intros [= <-]|done]. }
  rewrite Hmap. cbn. rewrite lookup_empty. split; [|by right].
  intros [[? [=]]|]; done.
Qed.

(** C8. Given anything that is not an array, [setLevels] throws a
    [TypeError] and changes nothing: the level sequence, the map from
    names to levels, the threshold and the label width are as before. *)
Theorem setLevels_non_array_throws (v : scalar) (w : World) :
  let r := run (setLevels (LevelsOther v)) w in
  r.1 = Throw (TypeError "levels must be an array.")
  ∧ _levels (self r.2) = _levels (self w)
  ∧ _levelMap (self r.2) = _levelMap (self w)
  ∧ _levelName (self r.2) = _levelName (self w)
  ∧ _maxLength (self r.2) = _maxLength (self w)
  ∧ r.2 = w.
Proof. by split_and!. Qed.

(** C10, as the code has it. For a logger whose threshold is not the
    name of a member of [Object.prototype], [setLevels] given the empty
    array throws, but only after it has replaced the registry: when the
    error is raised [_levelMap] is empty and [_levels] is the empty
    array, while the threshold name and the label width are the old
    ones. *)
Theorem setLevels_empty_array_clears (w : World) :
  property_key (_levelName (self w)) ∉ Object_prototype_keys →
  let r := run (setLevels (LevelsArray [])) w in
  (∃ message, r.1 = Throw (TypeError message))
  ∧ _levelMap (self r.2) = ∅
  ∧ _levels (self r.2) = []
  ∧ _levelName (self r.2) = _levelName (self w)
  ∧ _maxLength (self r.2) = _maxLength (self w).
Proof.
  intros Hkey r. subst r. unfold setLevels. run_steps.
  cbn [setLevels_map]. run_steps.
  unfold levelMap_get, set_levels, set_levelMap. cbn.
  rewrite lookup_empty, bool_decide_eq_false_2 by done.
  cbn. split_and!; eauto.
Qed.

(** C4, as the code has it. [setLevel] throws a [TypeError] exactly when
    its argument is not a string. Given a string that is not the name
    of a member of [Object.prototype], it throws an [Error] exactly when
    the string is not a key of [_levelMap], that is (by
    [setLevels_levelMap_names]) not the name of a registered level, and
    otherwise makes the string the threshold and changes nothing else.
    When it throws it changes nothing. *)
Theorem setLevel_resolves_names (level : jsval) (w : World) :
  let r := run (setLevel level) w in
  ((∃ message, r.1 = Throw (TypeError message)) ↔ typeof level ≠ "string")
  ∧ (∀ s, level = VStr s → s ∉ Object_prototype_keys →
       ((∃ message, r.1 = Throw (Error message)) ↔ _levelMap (self w) !! s = None)
       ∧ (is_Some (_levelMap (self w) !! s) →
          r = (Normal This, mkWorld (set_levelName (Some s) (self w)) (history w))))
  ∧ (∀ e, r.1 = Throw e → r.2 = w).
Proof.
  intros r. subst r. unfold setLevel.
  destruct (decide (typeof level = "string")) as [Hs|Hs].
  - rewrite bool_decide_eq_false_2 by (by intros ?).
    destruct level as [[| |b|n|s|o|f]|xs]; try discriminate Hs.
    cbn [js_toString]. run_steps. unfold levelMap_get.
    destruct (_levelMap (self w) !! s) as [l|] eqn:Hl.
    + cbn. split_and!.
      * split; [by intros [? [=]]|done].
      * intros s' [= <-] Hkey. rewrite Hl. split.
        -- split; [by intros [? [=]]|done].
        -- done.
      * done.
    + destruct (bool_decide (s ∈ Object_prototype_keys)) eqn:Hin; cbn.
      * split_and!.
        -- split; [by intros [? [=]]|done].
        -- intros s' [= <-] Hkey. by apply bool_decide_eq_true_1 in Hin.
        -- done.
      * split_and!.
        -- split; [by intros [? [=]]|done].
        -- intros s' [= <-] Hkey. rewrite Hl. split.
           ++ split; eauto.
           ++ by intros [? [=]].
        -- done.
  - rewrite bool_decide_eq_true_2 by done. rewrite run_throw. cbn.
    split_and!.
    + split; eauto.
    + intros s -> Hkey. by destruct Hs.
    + done.
Qed.

(** [setLevel] with a key of [_levelMap] makes it the threshold. *)
Lemma setLevel_registered s lv w :
  _levelMap (self w) !! s = Some lv →
  run (setLevel (VStr s)) w =
    (Normal This, mkWorld (set_levelName (Some s) (self w)) (history w)).
Proof.
  intros Hlv. unfold setLevel. cbn [typeof typeof_scalar js_toString].
  rewrite bool_decide_eq_false_2 by (by intros ?). run_steps.
  unfold levelMap_get. rewrite Hlv. cbn [lookup_truthy negb]. by run_steps.
Qed.

(** [setLevels] with an array that is not empty returns; its last level
    is then the last of [_levels] and a key of [_levelMap]. *)
Lemma setLevels_nonempty ls l w :
  last ls = Some l →
  ∃ o' l',
    run (setLevels (LevelsArray ls)) w = (Normal This, mkWorld o' (history w))
    ∧ last (_levels o') = Some l'
    ∧ LogLevel.name l' = LogLevel.name l
    ∧ is_Some (_levelMap o' !! LogLevel.name l).
Proof.
  intros Hlast. unfold setLevels. run_steps.
  match goal with |- context [run (setLevels_map ls ls 0) ?w1] =>
    destruct (setLevels_map_spec ls ls 0 w1)
      as (ls' & max' & o' & -> & Hmap & Hname & Hlen & Hnames)
  end.
  cbn [self history] in Hmap. run_steps.
  assert (∃ l', last ls' = Some l' ∧ LogLevel.name l' = LogLevel.name l)
    as (l' & Hlast' & Hl').
  { assert (last (map LogLevel.name ls') = last (map LogLevel.name ls)) as Heq
      by by rewrite Hnames.
    change (last (LogLevel.name <$> ls') = last (LogLevel.name <$> ls)) in Heq.
    rewrite !fmap_last, Hlast in Heq.
    destruct (last ls') as [l'|]; [|done]. exists l'. by injection Heq as ->. }
  assert (is_Some (_levelMap o' !! LogLevel.name l)) as Hkey.
  { apply Hmap. right.
    change (LogLevel.name l ∈ LogLevel.name <$> ls).
    by apply list_elem_of_fmap_2, last_Some_elem_of. }
  change (_levels (set_levels ls' o')) with ls'. rewrite Hlast'.
  destruct (lookup_truthy _); cbn [negb]; run_steps;
    eexists _, l'; (split; [reflexivity|]); by split_and!.
Qed.

(** Without a [level] option the constructor makes the name of the last
    level of the array the threshold, whether or not the array has a
    level named [info]. *)
Lemma constructor_threshold_is_last config h l :
  truthy (LoggrConfig.level config) = false →
  last (default DefaultLevels (LoggrConfig.levels config)) = Some l →
  let r := new_CatLoggr (Some config) h in
  r.1 = Normal tt ∧ _levelName (self r.2) = Some (LogLevel.name l).
Proof.
  intros Hlevel Hlast r. subst r. unfold new_CatLoggr, constructor.
  change (default LoggrConfig.empty (Some config)) with config. cbv zeta.
  rewrite run_bind.
  assert (∃ o1,
    run (if truthy (LoggrConfig.shardId config)
         then update (set_shard (LoggrConfig.shardId config));;
              update (set_shardLength (LoggrConfig.shardLength config))
         else mret tt) (mkWorld blank h) = (Normal tt, mkWorld o1 h))
    as (o1 & ->).
  { destruct (truthy (LoggrConfig.shardId config)); run_steps; eauto. }
  run_steps.
  match goal with |- context [run (setLevels _) ?w1] =>
    destruct (setLevels_nonempty _ l w1 Hlast)
      as (o' & l' & -> & Hlast' & Hl' & [lv Hlv])
  end.
  run_steps. rewrite Hlast', Hlevel, Hl'. run_steps.
  rewrite (setLevel_registered _ lv) by done.
  unfold setDefaultMeta. by run_steps.
Qed.

End registry.

(** ** The meta objects of the TypeScript class *)

Section meta.
Context `{Host}.

Lemma Object_assign_empty_l (m : MetaObj) : Object_assign ∅ m = m.
Proof. unfold Object_assign. apply (right_id_L ∅ (∪)). Qed.

Lemma Object_assign_empty_r (m : MetaObj) : Object_assign m ∅ = m.
Proof. unfold Object_assign. apply (left_id_L ∅ (∪)). Qed.

(** [meta(options)] builds a new object: the stored defaults stay, and
    the options win over them in [_meta]. *)
Lemma meta_keeps_defaultMeta (options : MetaObj) (w : World) :
  let r := run (meta options) w in
  r.1 = Normal This
  ∧ _defaultMeta (self r.2) = _defaultMeta (self w)
  ∧ _meta (self r.2) = options ∪ _defaultMeta (self w).
Proof.
  unfold meta. run_steps. cbn. by rewrite Object_assign_empty_l.
Qed.

(** After a call that was written, [_meta] is a copy of the stored
    defaults, which are as before. *)
Lemma _format_resets_meta level active args w :
  levelMap_get (_levelMap (self w)) (property_key (_levelName (self w)))
    = Own active →
  js_gt (LogLevel.position level) (LogLevel.position active) = false →
  let r := run (_format level args) w in
  _defaultMeta (self r.2) = _defaultMeta (self w)
  ∧ _meta (self r.2) = _defaultMeta (self w).
Proof.
  intros Hactive Hgt.
  destruct (_format_passed level active args w Hactive Hgt)
    as (chunk & before & -> & _).
  cbn. by rewrite Object_assign_empty_l, Object_assign_empty_r.
Qed.

End meta.

(** ** The logger at work *)

Import PlainHost.

(** With the threshold at [warn], [info] is filtered and [fatal] is
    written. *)
Lemma threshold_filters_calls_witness :
  _bound (self warn_logger) !! "info" = Some info_level
  ∧ run _level warn_logger = (Normal (Own warn_level), warn_logger)
  ∧ writes (history (run (call "info" [VStr "x"]) warn_logger).2)
      = writes (history warn_logger)
  ∧ (run (call "fatal" [VStr "x"]) warn_logger).1 = Normal This.
Proof.
  assert (_bound (self warn_logger) !! "info" = Some info_level) as H1
    by (vm_compute; reflexivity).
  assert (_bound (self warn_logger) !! "fatal" = Some fatal_level) as H1'
    by (vm_compute; reflexivity).
  assert (run _level warn_logger = (Normal (Own warn_level), warn_logger)) as H2
    by (vm_compute; reflexivity).
  split; [exact H1|]. split; [exact H2|]. split.
  - apply (threshold_filters_calls "info" info_level warn_level 5 2
             [VStr "x"] warn_logger H1 H2 eq_refl eq_refl). lia.
  - apply (threshold_filters_calls "fatal" fatal_level warn_level 0 2
             [VStr "x"] warn_logger H1' H2 eq_refl eq_refl). lia.
Defined.


(** The second of two post-hooks answers [fixed]: that is the text of
    the line. *)
Lemma post_hook_first_result_replaces_witness :
  writes (history (run (_write debug_level "assembled" false None) two_post_hooks).2)
  = [(process_stdout, " 01/01 00:00:00   debug   fixed" +:+ LF)].
Proof.
  rewrite (proj1 (post_hook_first_result_replaces debug_level "assembled" false
                    None two_post_hooks [Callback (λ _, VUndefined)] []
                    (λ _, VStr "fixed") eq_refl
                    ltac:(repeat constructor) eq_refl)).
  reflexivity.
Defined.

(** [setLevels([])] on the default logger leaves [_levelMap] empty. *)
Lemma setLevels_empty_array_clears_witness :
  (property_key (_levelName (self default_logger)) ∉ Object_prototype_keys)
  ∧ _levelMap (self (run (setLevels (LevelsArray [])) default_logger).2) = ∅.
Proof.
  assert (property_key (_levelName (self default_logger)) ∉ Object_prototype_keys)
    as Hkey by (apply (bool_decide_unpack _); vm_compute; exact I).
  split; [exact Hkey|].
  apply (setLevels_empty_array_clears default_logger Hkey).
Defined.

(** [setLevel('warn')] on the default logger sets the threshold. *)
Lemma setLevel_resolves_names_witness :
  ("warn" ∉ Object_prototype_keys)
  ∧ run (setLevel (VStr "warn")) default_logger =
      (Normal This,
       mkWorld (set_levelName (Some "warn") (self default_logger))
         (history default_logger)).
Proof.
  assert ("warn" ∉ Object_prototype_keys) as Hkey
    by (apply (bool_decide_unpack _); vm_compute; exact I).
  split; [exact Hkey|].
  apply (proj1 (proj2 (setLevel_resolves_names (VStr "warn") default_logger))
           "warn" eq_refl Hkey).
  vm_compute. eauto.
Defined.

(** C10, as the claim has it, fails: [setLevel('toString')] returns on
    the default logger, and on the logger it leaves [setLevels([])]
    empties the registry and returns without an error. *)
Lemma setLevels_empty_array_can_return :
  (run (setLevel (VStr "toString")) default_logger).1 = Normal This
  ∧ (run (setLevels (LevelsArray []))
       (run (setLevel (VStr "toString")) default_logger).2).1 = Normal This
  ∧ _levelMap (self (run (setLevels (LevelsArray []))
                       (run (setLevel (VStr "toString")) default_logger).2).2)
      = ∅.
Proof. split_and!; vm_compute; reflexivity. Qed.

(** C4, as the claim has it, fails: on the default registry [log] and
    [dir] are aliases of the registered level [debug], and each of them
    is bound as a level function, yet [setLevel] throws for them. *)
Lemma setLevel_rejects_aliases :
  last (_levels (self default_logger)) = Some debug_level
  ∧ LogLevel.aliases debug_level = ["log"; "dir"]
  ∧ _bound (self default_logger) !! "log" = Some debug_level
  ∧ (run (setLevel (VStr "log")) default_logger).1
      = Throw (Error "the level 'log' does not exist")
  ∧ (run (setLevel (VStr "dir")) default_logger).1
      = Throw (Error "the level 'dir' does not exist").
Proof. split_and!; vm_compute; reflexivity. Qed.

(** C2, on the code: with the threshold at [warn], the call
    [info('x')] is filtered; it writes nothing and leaves the logger as
    it was, but what it hands back is [undefined], not the logger. *)
Theorem filtered_call_returns_undefined :
  let r := run (call "info" [VStr "x"]) warn_logger in
  r.1 = Normal Undefined
  ∧ self r.2 = self warn_logger
  ∧ writes (history r.2) = [].
Proof. split_and!; vm_compute; reflexivity. Qed.

(** C3, on the code: [new CatLoggr()] registers a level named [info],
    and its threshold is [debug], the last level. *)
Theorem default_threshold_is_last_level :
  (new_CatLoggr None []).1 = Normal tt
  ∧ is_Some (_levelMap (self default_logger) !! "info")
  ∧ _levelName (self default_logger) = Some "debug".
Proof. split_and!; vm_compute; eauto. Qed.

(** C9, on the code: [new CatLoggr({ shardId: 1 })] has no shard
    length, and the shard tag of the line it writes is [1], not padded;
    padded to 4 it would have been [ 1  ]. *)
Theorem shard_tag_not_padded :
  _shardLength (self shard_logger) = None
  ∧ shardText (self shard_logger) = "1"
  ∧ writes (history (run (call "log" [VStr "a"]) shard_logger).2)
      = [(process_stdout, "1 01/01 00:00:00   debug   a" +:+ LF)]
  ∧ _centrePad "1" (Some 4%Z) = " 1  ".
Proof. split_and!; vm_compute; reflexivity. Qed.

(** C5, on the code of the JavaScript variant: [meta({ depth: 5 })]
    writes the override into the stored defaults, and the call after
    the one that was written still resolves [depth] to 5. *)
Theorem legacy_meta_overwrites_defaults :
  let o := Legacy.constructor None in
  let o' := Legacy.meta {[ "depth" := VNum 5 ]} o in
  Legacy.defaults o !! "depth" = Some (VNum 1)
  ∧ Legacy.defaults o' !! "depth" = Some (VNum 5)
  ∧ Legacy.pending (Legacy.written o') !! "depth" = Some (VNum 5).
Proof. split_and!; vm_compute; reflexivity. Qed.

(** * Further properties *)

(** ** Centre padding *)

Lemma length_append (s t : string) :
  String.length (s +:+ t) = String.length s + String.length t.
Proof. induction s as [|c s IH]; [done|]. cbn. by rewrite <- IH. Qed.

Lemma length_spaces (n : nat) : String.length (spaces n) = n.
Proof. induction n as [|n IH]; [done|]. cbn. by rewrite IH. Qed.

Lemma _centrePad_length (text : string) (len : Z) :
  Z.of_nat (String.length (_centrePad text (Some len)))
    = Z.max (Z.of_nat (String.length text)) len.
Proof.
  unfold _centrePad.
  destruct (Z.ltb_spec (Z.of_nat (String.length text)) len) as [Hlt|Hge].
  - rewrite !length_append, !length_spaces.
    set (n := Z.of_nat (String.length text)) in *.
    assert (0 ≤ len - n)%Z by lia.
    assert ((len - n) / 2 + (len - n + 1) / 2 = len - n)%Z.
    { pose proof (Z.div_mod (len - n) 2 ltac:(lia)) as Hd.
      pose proof (Z.mod_pos_bound (len - n) 2 ltac:(lia)) as Hm.
      assert ((len - n) `mod` 2 = 0 ∨ (len - n) `mod` 2 = 1)%Z as [Hr|Hr] by lia.
      - replace (len - n + 1)%Z with (1 + (len - n) / 2 * 2)%Z by lia.
        rewrite Z.div_add by lia. change (1 / 2)%Z with 0%Z. lia.
      - replace (len - n + 1)%Z with (0 + ((len - n) / 2 + 1) * 2)%Z by lia.
        rewrite Z.div_add by lia. change (0 / 2)%Z with 0%Z. lia. }
    assert (0 ≤ (len - n) / 2)%Z by (apply Z.div_pos; lia).
    assert (0 ≤ (len - n + 1) / 2)%Z by (apply Z.div_pos; lia).
    lia.
  - lia.
Qed.

(** X1. [_centrePad] never shortens and never truncates: the result is
    as long as the longer of the text and the asked length, and it is the
    text itself when no length is given. *)
Theorem _centrePad_width (text : string) (len : Z) :
  Z.of_nat (String.length (_centrePad text (Some len)))
    = Z.max (Z.of_nat (String.length text)) len
  ∧ _centrePad text None = text.
Proof. split; [apply _centrePad_length|done]. Qed.

(** X2. When the text is shorter than the asked length, [_centrePad]
    puts it between two runs of spaces that fill the length; the run on
    the right is as long as the one on the left or one longer. *)
Theorem _centrePad_centres (text : string) (len : Z) :
  (Z.of_nat (String.length text) < len)%Z →
  ∃ left right,
    _centrePad text (Some len) = spaces left +:+ text +:+ spaces right
    ∧ Z.of_nat (left + String.length text + right) = len
    ∧ (right = left ∨ right = S left).
Proof.
  intros Hlt. unfold _centrePad.
  rewrite (proj2 (Z.ltb_lt _ _) Hlt).
  set (n := Z.of_nat (String.length text)) in *.
  eexists _, _. split; [reflexivity|].
  pose proof (Z.div_mod (len - n) 2 ltac:(lia)) as Hd.
  pose proof (Z.mod_pos_bound (len - n) 2 ltac:(lia)) as Hm.
  assert (0 ≤ (len - n) / 2)%Z by (apply Z.div_pos; lia).
  assert ((len - n) `mod` 2 = 0 ∨ (len - n) `mod` 2 = 1)%Z as [Hr|Hr] by lia.
  - assert ((len - n + 1) / 2 = (len - n) / 2)%Z as ->.
    { replace (len - n + 1)%Z with (1 + (len - n) / 2 * 2)%Z by lia.
      rewrite Z.div_add by lia. by change (1 / 2)%Z with 0%Z. }
    split; [lia|by left].
  - assert ((len - n + 1) / 2 = (len - n) / 2 + 1)%Z as ->.
    { replace (len - n + 1)%Z with (0 + ((len - n) / 2 + 1) * 2)%Z by lia.
      rewrite Z.div_add by lia. by change (0 / 2)%Z with 0%Z. }
    split; [lia|right; lia].
Qed.

(** ** The registry that [setLevels] installs *)

Lemma longest_name_le (longest : nat) (ls : list LogLevel.t) :
  (longest ≤ longest_name longest ls)%nat.
Proof.
  revert longest. induction ls as [|l ls IH]; intros longest; cbn; [done|].
  etrans; [|apply IH]. lia.
Qed.

Lemma longest_name_bounds (longest : nat) (ls : list LogLevel.t) l :
  l ∈ ls → (String.length (LogLevel.name l) ≤ longest_name longest ls)%nat.
Proof.
  revert longest. induction ls as [|x ls IH]; intros longest Hin.
  - by apply elem_of_nil in Hin.
  - apply elem_of_cons in Hin as [->|Hin]; cbn.
    + etrans; [|apply longest_name_le]. lia.
    + by apply IH.
Qed.

Lemma bind_aliases_lookup l bound k :
  bind_aliases l bound !! k =
    if bool_decide (k ∈ LogLevel.aliases l) then Some l else bound !! k.
Proof.
  unfold bind_aliases. revert bound.
  induction (LogLevel.aliases l) as [|a as' IH]; intros bound; cbn; [done|].
  rewrite IH. destruct (decide (k ∈ as')) as [Hin|Hin].
  - rewrite !bool_decide_eq_true_2; [done|by apply elem_of_cons; right|done].
  - rewrite (bool_decide_eq_false_2 (k ∈ as')) by done.
    destruct (decide (k = a)) as [->|Hne].
    + rewrite bool_decide_eq_true_2 by (apply elem_of_cons; by left).
      apply lookup_insert_eq.
    + rewrite bool_decide_eq_false_2
        by (rewrite elem_of_cons; by intros [?|?]).
      by apply lookup_insert_ne.
Qed.

Lemma indexOf_from_nodup i pre l post :
  LogLevel.oid l ∉ map LogLevel.oid pre →
  indexOf_from i (pre ++ l :: post) l = (i + Z.of_nat (length pre))%Z.
Proof.
  revert i. induction pre as [|x pre IH]; intros i Hnot; cbn.
  - rewrite Nat.eqb_refl. lia.
  - cbn in Hnot. apply not_elem_of_cons in Hnot as [Hne Hnot].
    rewrite (proj2 (Nat.eqb_neq _ _)) by done. rewrite IH by done. lia.
Qed.

Section registry_spec.
Context `{Host}.

(** The mapping of [setLevels], in full. *)
Lemma setLevels_map_full all todo longest w :
  ∃ o',
    run (setLevels_map all todo longest) w =
      (Normal (map (numbered all) todo, longest_name longest todo),
       mkWorld o' (history w))
    ∧ (∀ s lv, _levelMap o' !! s = Some lv →
         _levelMap (self w) !! s = Some lv
         ∨ ∃ l, l ∈ todo ∧ LogLevel.name l = s ∧ lv = numbered all l)
    ∧ (∀ k b, _bound o' !! k = Some b →
         _bound (self w) !! k = Some b
         ∨ ∃ l, l ∈ todo ∧ names l k ∧ b = numbered all l)
    ∧ (∀ k, is_Some (_bound (self w) !! k) → is_Some (_bound o' !! k))
    ∧ (∀ l k, l ∈ todo → names l k →
         ∃ l', l' ∈ todo ∧ names l' k ∧ _bound o' !! k = Some (numbered all l'))
    ∧ _levelName o' = _levelName (self w)
    ∧ _levels o' = _levels (self w)
    ∧ _maxLength o' = _maxLength (self w)
    ∧ same_elsewhere (self w) o'.
Proof.
  revert longest w.
  induction todo as [|l todo IH]; intros longest w; cbn [setLevels_map].
  - exists (self w). rewrite run_ret, world_eta. split_and!; try done.
    + auto.
    + auto.
    + intros l k Hin. by apply elem_of_nil in Hin.
  - unfold setLevels_callback. run_steps. fold (numbered all l).
    set (l' := numbered all l).
    set (longest1 := if (longest <? String.length (LogLevel.name l'))%nat
                     then String.length (LogLevel.name l') else longest).
    assert (longest1 = Nat.max longest (String.length (LogLevel.name l)))
      as Hlongest.
    { subst longest1. change (LogLevel.name l') with (LogLevel.name l).
      destruct (Nat.ltb_spec longest (String.length (LogLevel.name l))); lia. }
    match goal with |- context [run (setLevels_map all todo longest1) ?w1] =>
      destruct (IH longest1 w1)
        as (o' & -> & Hmap & Hchar & Hold & Hnew & Hname & Hlevels & Hmax
              & Hframe)
    end.
    run_steps. exists o'. cbn [map longest_name foldl]. rewrite <- Hlongest.
    split; [done|]. cbn [self] in *.
    unfold set_bound, set_levelMap in *.
    cbn [_bound _levelMap _levelName _levels _maxLength]
      in Hmap, Hchar, Hold, Hname, Hlevels, Hmax.
    assert (LogLevel.name l' = LogLevel.name l) as Hl' by done.
    assert (∀ k b,
      bind_aliases l' (<[LogLevel.name l' := l']> (_bound (self w))) !! k = Some b →
      (names l k ∧ b = l') ∨ (¬ names l k ∧ _bound (self w) !! k = Some b))
      as Hstep.
    { intros k b. rewrite bind_aliases_lookup. unfold names.
      change (LogLevel.aliases l') with (LogLevel.aliases l). rewrite Hl'.
      destruct (decide (k ∈ LogLevel.aliases l)) as [Hin|Hin].
      - rewrite bool_decide_eq_true_2 by done. intros [= <-]. left. auto.
      - rewrite bool_decide_eq_false_2 by done.
        destruct (decide (LogLevel.name l = k)) as [<-|Hne].
        + rewrite lookup_insert_eq. intros [= <-]. left. auto.
        + rewrite lookup_insert_ne by done. intros Hb. right.
          split; [|done]. intros [->|?]; done. }
    split_and!; try done.
    + intros s lv Hlv. destruct (Hmap s lv Hlv) as [Hin|(x & Hx & Hn & ->)].
      * destruct (decide (LogLevel.name l = s)) as [<-|Hne].
        -- rewrite ?Hl', lookup_insert_eq in Hin. injection Hin as <-.
           right. exists l. split_and!; [left|done|done].
        -- rewrite ?Hl', lookup_insert_ne in Hin by done. by left.
      * right. exists x. split_and!; [by right|done|done].
    + intros k b Hb. destruct (Hchar k b Hb) as [Hin|(x & Hx & Hn & ->)].
      * destruct (Hstep k b Hin) as [[Hk ->]|[_ Hw]]; [|by left].
        right. exists l. split_and!; [left|done|done].
      * right. exists x. split_and!; [by right|done|done].
    + intros k Hk. apply Hold. rewrite bind_aliases_lookup.
      destruct (bool_decide _); [done|].
      rewrite lookup_insert_is_Some.
      destruct (decide (LogLevel.name l' = k)); auto.
    + intros x k Hx Hk. apply elem_of_cons in Hx as [->|Hx].
      * assert (is_Some (_bound o' !! k)) as [b Hb].
        { apply Hold. rewrite bind_aliases_lookup.
          change (LogLevel.aliases l') with (LogLevel.aliases l). rewrite Hl'.
          destruct Hk as [->|Hk].
          - destruct (bool_decide _); [done|]. rewrite lookup_insert_eq. done.
          - by rewrite bool_decide_eq_true_2 by done. }
        destruct (Hchar k b Hb) as [Hin|(y & Hy & Hn & ->)].
        -- destruct (Hstep k b Hin) as [[_ ->]|[Hno _]]; [|done].
           exists l. split_and!; [left|done|done].
        -- exists y. split_and!; [by right|done|done].
      * destruct (Hnew x k Hx Hk) as (y & Hy & Hn & Hb).
        exists y. split_and!; [by right|done|done].
Qed.
End registry_spec.

Section registry_props.
Context `{Host}.

(** [setLevels] with an array that is not empty, in full. *)
Lemma setLevels_full ls l w :
  last ls = Some l →
  ∃ o',
    run (setLevels (LevelsArray ls)) w = (Normal This, mkWorld o' (history w))
    ∧ _levels o' = map (numbered ls) ls
    ∧ _maxLength o' = Some (Z.of_nat (longest_name 0 ls) + 2)%Z
    ∧ (∀ s lv, _levelMap o' !! s = Some lv →
         ∃ x, x ∈ ls ∧ LogLevel.name x = s ∧ lv = numbered ls x)
    ∧ (∀ s, is_Some (_levelMap o' !! s) ↔ s ∈ map LogLevel.name ls)
    ∧ (∀ k b, _bound o' !! k = Some b →
         _bound (self w) !! k = Some b
         ∨ ∃ x, x ∈ ls ∧ names x k ∧ b = numbered ls x)
    ∧ (∀ k, is_Some (_bound (self w) !! k) → is_Some (_bound o' !! k))
    ∧ (∀ x k, x ∈ ls → names x k →
         ∃ x', x' ∈ ls ∧ names x' k ∧ _bound o' !! k = Some (numbered ls x'))
    ∧ _levelName o' =
        (if lookup_truthy
              (levelMap_get (_levelMap o') (property_key (_levelName (self w))))
         then _levelName (self w) else Some (LogLevel.name l))
    ∧ same_elsewhere (self w) o'.
Proof.
  intros Hlast.
  destruct (setLevels_nonempty ls l w Hlast) as (o0 & l0 & Hrun & _).
  pose proof (setLevels_levelMap_names ls w _ Hrun) as Hkeys.
  cbn [self] in Hkeys. revert Hrun.
  unfold setLevels. run_steps.
  match goal with |- context [run (setLevels_map ls ls 0) ?w1] =>
    destruct (setLevels_map_full ls ls 0 w1)
      as (o' & -> & Hmap & Hchar & Hold & Hnew & Hname & Hlevels & Hmax
            & Hframe)
  end.
  run_steps. cbn [self] in *.
  unfold set_levels, set_levelMap, same_elsewhere in *.
  cbn [_bound _levelMap _levelName _levels _maxLength _shard _shardLength
       _meta _defaultMeta _stdout _stderr _hooks] in *.
  assert (last (map (numbered ls) ls) = Some (numbered ls l)) as Hlast'.
  { change (last (numbered ls <$> ls) = Some (numbered ls l)).
    by rewrite fmap_last, Hlast. }
  rewrite Hlast', Hname.
  assert (∀ s lv, _levelMap o' !! s = Some lv →
            ∃ x, x ∈ ls ∧ LogLevel.name x = s ∧ lv = numbered ls x) as Hmap'.
  { intros s lv Hlv. destruct (Hmap s lv Hlv) as [Hin|?]; [|done].
    by rewrite lookup_empty in Hin. }
  destruct Hframe as (?&?&?&?&?&?&?).
  destruct (lookup_truthy
              (levelMap_get (_levelMap o') (property_key (_levelName (self w)))))
    eqn:Htruthy; cbn [negb]; run_steps; intros [= <-];
    (eexists; split; [reflexivity|]);
    unfold set_maxLength, set_levels, set_levelName;
    cbn [_bound _levelMap _levelName _levels _maxLength _shard _shardLength
         _meta _defaultMeta _stdout _stderr _hooks] in *;
    rewrite ?Htruthy, ?Hname; by split_and!.
Qed.

(** X3. For an array of distinct level objects that is not empty,
    [setLevels] returns and numbers the levels by their place: [_levels]
    has as many levels as the array, in the same order and with the
    same names, and the level at index [i] has position [i]. *)
Theorem setLevels_numbers_in_order (ls : list LogLevel.t) (w : World) :
  ls ≠ [] →
  NoDup (map LogLevel.oid ls) →
  let r := run (setLevels (LevelsArray ls)) w in
  r.1 = Normal This
  ∧ length (_levels (self r.2)) = length ls
  ∧ ∀ i x, _levels (self r.2) !! i = Some x →
      LogLevel.position x = Some (Z.of_nat i)
      ∧ ∃ original, ls !! i = Some original
          ∧ LogLevel.name x = LogLevel.name original
          ∧ LogLevel.oid x = LogLevel.oid original.
Proof.
  intros Hne Hdup r. subst r.
  destruct (last ls) as [l|] eqn:Hlast;
    [|by apply last_None in Hlast].
  destruct (setLevels_full ls l w Hlast) as (o' & -> & Hlevels & _).
  cbn [fst snd self]. rewrite Hlevels. split_and!; [done|by rewrite length_map|].
  intros i x Hx.
  change (map (numbered ls) ls) with (numbered ls <$> ls) in Hx.
  rewrite list_lookup_fmap in Hx.
  destruct (ls !! i) as [original|] eqn:Hi; [|done]. injection Hx as <-.
  split; [|by exists original].
  cbn. f_equal. unfold indexOf.
  apply list_elem_of_split_length in Hi as (pre & post & -> & ->).
  rewrite indexOf_from_nodup; [lia|].
  rewrite map_app in Hdup. cbn in Hdup.
  apply NoDup_app in Hdup as (_ & Hdisj & _).
  intros Hin. apply (Hdisj _ Hin). by left.
Qed.

(** X4. After [setLevels] the label width is the length of the longest
    name plus two, and the name of every level of the array, centre
    padded for its badge, is exactly that wide. *)
Theorem setLevels_badges_same_width (ls : list LogLevel.t) (w : World) :
  ls ≠ [] →
  let o' := self (run (setLevels (LevelsArray ls)) w).2 in
  _maxLength o' = Some (Z.of_nat (longest_name 0 ls) + 2)%Z
  ∧ ∀ x, x ∈ ls →
      String.length (_centrePad (LogLevel.name x) (_maxLength o'))
        = longest_name 0 ls + 2.
Proof.
  intros Hne o'. subst o'.
  destruct (last ls) as [l|] eqn:Hlast;
    [|by apply last_None in Hlast].
  destruct (setLevels_full ls l w Hlast) as (o' & -> & _ & Hmax & _).
  cbn [snd self]. rewrite Hmax. split; [done|]. intros x Hx.
  pose proof (longest_name_bounds 0 ls x Hx).
  pose proof (_centrePad_length (LogLevel.name x)
                (Z.of_nat (longest_name 0 ls) + 2)).
  lia.
Qed.

(** X5. [setLevels] with an array that is not empty never throws and
    leaves a threshold that resolves: it keeps the threshold name when
    that is the name of a level of the new array, and replaces it by the
    name of the last level when it is not (nor the name of a member of
    [Object.prototype]). *)
Theorem setLevels_keeps_or_resets_threshold (ls : list LogLevel.t)
  (l : LogLevel.t) (w : World) :
  last ls = Some l →
  let r := run (setLevels (LevelsArray ls)) w in
  let key := property_key (_levelName (self w)) in
  r.1 = Normal This
  ∧ history r.2 = history w
  ∧ (key ∈ map LogLevel.name ls → _levelName (self r.2) = _levelName (self w))
  ∧ (key ∉ map LogLevel.name ls → key ∉ Object_prototype_keys →
     _levelName (self r.2) = Some (LogLevel.name l))
  ∧ lookup_truthy
      (levelMap_get (_levelMap (self r.2)) (property_key (_levelName (self r.2))))
    = true.
Proof.
  intros Hlast r key. subst r key.
  destruct (setLevels_full ls l w Hlast)
    as (o' & -> & _ & _ & _ & Hkeys & _ & _ & _ & Hname & _).
  cbn [fst snd self history]. rewrite Hname.
  unfold levelMap_get.
  set (key := property_key (_levelName (self w))).
  assert (is_Some (_levelMap o' !! LogLevel.name l)) as [last_level Hl'].
  { apply Hkeys. change (LogLevel.name l ∈ LogLevel.name <$> ls).
    by apply list_elem_of_fmap_2, last_Some_elem_of. }
  destruct (_levelMap o' !! key) as [lv|] eqn:Hl.
  - cbn [lookup_truthy]. fold key. rewrite Hl. split_and!; try done.
    intros Hnot. destruct Hnot. apply Hkeys. eauto.
  - destruct (bool_decide (key ∈ Object_prototype_keys)) eqn:Hb;
      cbn [lookup_truthy].
    + fold key. rewrite Hl, Hb. split_and!; try done.
      intros _ Hproto. by apply bool_decide_eq_true_1 in Hb.
    + change (property_key (Some (LogLevel.name l))) with (LogLevel.name l).
      rewrite Hl'. split_and!; try done.
      intros Hin. apply Hkeys in Hin as [? Hin]. by rewrite Hl in Hin.
Qed.

(** X6. [setLevels] binds a level function under the name and under
    every alias of every level of the array, each to a level of the
    array that has that name or alias, and it never unbinds: a name that
    was bound before is bound after. *)
Theorem setLevels_binds_names_and_aliases (ls : list LogLevel.t) (w : World) :
  ls ≠ [] →
  let o' := self (run (setLevels (LevelsArray ls)) w).2 in
  (∀ x k, x ∈ ls → names x k →
     ∃ x', x' ∈ ls ∧ names x' k ∧ _bound o' !! k = Some (numbered ls x'))
  ∧ (∀ k, is_Some (_bound (self w) !! k) → is_Some (_bound o' !! k)).
Proof.
  intros Hne o'. subst o'.
  destruct (last ls) as [l|] eqn:Hlast;
    [|by apply last_None in Hlast].
  destruct (setLevels_full ls l w Hlast)
    as (o' & -> & _ & _ & _ & _ & _ & Hold & Hnew & _).
  by cbn [snd self].
Qed.

(** X7. Every name of the array can be made the threshold: after
    [setLevels], [setLevel] with the name of one of its levels returns,
    and [_level] is then a level of [_levels] that has this name. *)
Theorem setLevels_then_setLevel (ls : list LogLevel.t) (x : LogLevel.t)
  (w : World) :
  x ∈ ls →
  let r := run (setLevels (LevelsArray ls);;
                setLevel (VStr (LogLevel.name x));;
                _level) w in
  ∃ active,
    r.1 = Normal (Own active)
    ∧ LogLevel.name active = LogLevel.name x
    ∧ active ∈ _levels (self r.2)
    ∧ _levelName (self r.2) = Some (LogLevel.name x).
Proof.
  intros Hx r. subst r.
  destruct (last ls) as [l|] eqn:Hlast;
    [|apply last_None in Hlast; subst; by apply elem_of_nil in Hx].
  rewrite run_bind.
  destruct (setLevels_full ls l w Hlast)
    as (o' & -> & Hlevels & _ & Hmap & Hkeys & _).
  assert (is_Some (_levelMap o' !! LogLevel.name x)) as [lv Hlv].
  { apply Hkeys. change (LogLevel.name x ∈ LogLevel.name <$> ls).
    by apply list_elem_of_fmap_2. }
  rewrite run_bind, (setLevel_registered _ lv) by done.
  unfold _level. run_steps. unfold levelMap_get, set_levelName.
  cbn [_levelMap _levelName _levels].
  change (property_key (Some (LogLevel.name x))) with (LogLevel.name x).
  rewrite Hlv.
  destruct (Hmap _ _ Hlv) as (y & Hy & Hn & ->).
  exists (numbered ls y). cbn [fst snd self]. split_and!; try done.
  rewrite Hlevels. change (numbered ls y ∈ numbered ls <$> ls).
  by apply list_elem_of_fmap_2.
Qed.

End registry_props.

(** ** Meta objects *)

Lemma or_default_idemp v d : d ≠ VUndefined → or_default (or_default v d) d = or_default v d.
Proof.
  intros Hd. destruct v as [[]|]; try done. cbn.
  destruct d as [[]|]; done.
Qed.

Lemma new_LogMeta_lookup (m : MetaObj) k d :
  (k, d) ∈ LogMeta_defaults →
  new_LogMeta m !! k = Some (or_default (prop m k) d).
Proof.
  unfold LogMeta_defaults, new_LogMeta. rewrite !elem_of_cons, elem_of_nil.
  intros [[= -> ->]|[[= -> ->]|[[= -> ->]|[[= -> ->]|[[= -> ->]|[]]]]]];
    by simplify_map_eq.
Qed.

Lemma new_LogMeta_lookup_other (m : MetaObj) k :
  k ∉ LogMeta_defaults.*1 → new_LogMeta m !! k = None.
Proof.
  unfold LogMeta_defaults, new_LogMeta. cbn.
  rewrite !not_elem_of_cons. intros (?&?&?&?&?&_).
  by simplify_map_eq.
Qed.

Lemma new_LogMeta_idemp (m : MetaObj) : new_LogMeta (new_LogMeta m) = new_LogMeta m.
Proof.
  apply map_eq. intros k.
  destruct (decide (k ∈ LogMeta_defaults.*1)) as [Hin|Hnot].
  - apply list_elem_of_fmap in Hin as ([k' d] & -> & Hin). cbn.
    rewrite !(new_LogMeta_lookup _ k' d) by done. f_equal.
    unfold prop at 1. rewrite (new_LogMeta_lookup _ k' d) by done. cbn.
    apply or_default_idemp.
    revert Hin. unfold LogMeta_defaults. rewrite !elem_of_cons, elem_of_nil.
    intros [[= -> ->]|[[= -> ->]|[[= -> ->]|[[= -> ->]|[[= -> ->]|[]]]]]]; done.
  - by rewrite !new_LogMeta_lookup_other.
Qed.

Section meta_props.
Context `{Host}.

Lemma run_meta (options : MetaObj) (w : World) :
  run (meta options) w =
    (Normal This,
     mkWorld (set_meta (options ∪ _defaultMeta (self w)) (self w)) (history w)).
Proof.
  unfold meta. run_steps. by rewrite Object_assign_empty_l.
Qed.

(** X8. [setDefaultMeta] with an object stores exactly the five options
    of [LogMeta]: each is the value given, or its default when the
    object has no such property or has it as [undefined]; any other
    property of the object is dropped, and the pending meta is left. *)
Theorem setDefaultMeta_resolves_options (given : MetaObj) (w : World) :
  let r := run (setDefaultMeta (MetaObject given)) w in
  r.1 = Normal This
  ∧ (∀ k d, (k, d) ∈ LogMeta_defaults →
       _defaultMeta (self r.2) !! k =
         Some (match given !! k with
               | Some VUndefined | None => d
               | Some v => v
               end))
  ∧ (∀ k, k ∉ LogMeta_defaults.*1 → _defaultMeta (self r.2) !! k = None)
  ∧ _meta (self r.2) = _meta (self w).
Proof.
  intros r. subst r. unfold setDefaultMeta. run_steps.
  unfold set_defaultMeta. cbn [fst snd self _defaultMeta _meta].
  split_and!; try done.
  - intros k d Hin. rewrite (new_LogMeta_lookup _ k d) by done.
    unfold prop. by destruct (given !! k) as [[[]|]|].
  - apply new_LogMeta_lookup_other.
Qed.

(** X9. Storing the stored defaults again changes nothing:
    [setDefaultMeta(meta)] followed by [setDefaultMeta] of what it
    stored leaves the same defaults. *)
Theorem setDefaultMeta_of_stored_defaults (given : MetaObj) (w : World) :
  let w1 := (run (setDefaultMeta (MetaObject given)) w).2 in
  let w2 := (run (setDefaultMeta (MetaObject (_defaultMeta (self w1)))) w1).2 in
  _defaultMeta (self w2) = _defaultMeta (self w1).
Proof.
  intros w1 w2. subst w1 w2. unfold setDefaultMeta. run_steps.
  unfold set_defaultMeta. cbn. apply new_LogMeta_idemp.
Qed.

(** X10. [meta(options)] resolves every option of the next call from
    the options first and from the stored defaults otherwise; a property
    given as [undefined] hides the default. The stored defaults are not
    touched. *)
Theorem meta_call_site_wins (options : MetaObj) (w : World) :
  let r := run (meta options) w in
  r.1 = Normal This
  ∧ (∀ k, _meta (self r.2) !! k =
       match options !! k with
       | Some v => Some v
       | None => _defaultMeta (self w) !! k
       end)
  ∧ (∀ k, options !! k = Some VUndefined → prop (_meta (self r.2)) k = VUndefined)
  ∧ _defaultMeta (self r.2) = _defaultMeta (self w).
Proof.
  intros r. subst r. unfold meta. run_steps.
  unfold set_meta. cbn [fst snd self _meta _defaultMeta].
  rewrite Object_assign_empty_l. unfold Object_assign.
  assert (∀ k, (options ∪ _defaultMeta (self w)) !! k =
            match options !! k with
            | Some v => Some v
            | None => _defaultMeta (self w) !! k
            end) as Hlookup.
  { intros k. destruct (options !! k) as [v|] eqn:Hk.
    - by apply lookup_union_Some_l.
    - by rewrite lookup_union_r. }
  split_and!; try done.
  intros k Hk. unfold prop. by rewrite Hlookup, Hk.
Qed.

(** X11. The options of [meta(options)] last for one written call:
    after [meta(options)] and a call that is written, the pending meta
    is a copy of the stored defaults, which are as before. *)
Theorem meta_lasts_one_written_call (options : MetaObj) (level active : LogLevel.t)
  (args : list jsval) (w : World) :
  run _level w = (Normal (Own active), w) →
  js_gt (LogLevel.position level) (LogLevel.position active) = false →
  let r := run (meta options;; _format level args) w in
  r.1 = Normal This
  ∧ _meta (self r.2) = _defaultMeta (self w)
  ∧ _defaultMeta (self r.2) = _defaultMeta (self w).
Proof.
  intros Hlevel Hgt r. subst r.
  assert (levelMap_get (_levelMap (self w)) (property_key (_levelName (self w)))
            = Own active) as Hactive.
  { unfold _level in Hlevel. revert Hlevel. run_steps. congruence. }
  rewrite !run_bind, !run_meta.
  match goal with |- context [run (_format level args) ?w1] =>
    destruct (_format_passed level active args w1)
      as (chunk & before & -> & _); [done|done|]
  end.
  unfold set_meta. cbn [fst snd self _meta _defaultMeta].
  by rewrite !Object_assign_empty_l, !Object_assign_empty_r.
Qed.

(** X12. A filtered call does not use up the pending meta: after
    [meta(options)] and a call above the threshold, the options are
    still pending, for whichever call comes next. *)
Theorem filtered_call_keeps_pending_meta (options : MetaObj)
  (level active : LogLevel.t) (args : list jsval) (w : World) :
  run _level w = (Normal (Own active), w) →
  js_gt (LogLevel.position level) (LogLevel.position active) = true →
  let r := run (meta options;; _format level args) w in
  r.1 = Normal Undefined
  ∧ _meta (self r.2) = options ∪ _defaultMeta (self w)
  ∧ writes (history r.2) = writes (history w).
Proof.
  intros Hlevel Hgt r. subst r.
  assert (levelMap_get (_levelMap (self w)) (property_key (_levelName (self w)))
            = Own active) as Hactive.
  { unfold _level in Hlevel. revert Hlevel. run_steps. congruence. }
  rewrite !run_bind, !run_meta.
  rewrite !(_format_filtered level active) by done.
  unfold set_meta. cbn [fst snd self history _meta _defaultMeta].
  by rewrite writes_app, app_nil_r.
Qed.

End meta_props.

(** ** Hooks, the writer and the template step *)

Lemma count_formats_step c d rest :
  count_formats (String c (String d rest)) =
    if Ascii.eqb c "%" && is_format_letter d
    then S (count_formats rest) else count_formats (String d rest).
Proof. reflexivity. Qed.

Lemma count_formats_no_percent (s : string) :
  "%"%char ∉ String.list_ascii_of_string s → count_formats s = 0.
Proof.
  induction s as [|c s IH]; [done|]. cbn [String.list_ascii_of_string].
  intros Hnot. apply not_elem_of_cons in Hnot as [Hc Hs].
  destruct s as [|d rest]; [done|]. rewrite count_formats_step.
  assert (Ascii.eqb c "%" = false) as -> by (apply Ascii.eqb_neq; congruence).
  cbn [andb]. by apply IH.
Qed.

Lemma count_formats_bound (s : string) :
  (2 * count_formats s ≤ String.length s)%nat.
Proof.
  assert (∀ n s, (String.length s ≤ n)%nat →
            (2 * count_formats s ≤ String.length s)%nat)
    as Hall; [|by apply (Hall (String.length s))].
  clear s. intros n. induction n as [|n IH]; intros s Hlen.
  - destruct s; [cbn; lia|cbn in Hlen; lia].
  - destruct s as [|c [|d rest]]; [cbn; lia|cbn; lia|].
    rewrite count_formats_step. cbn [String.length] in *.
    destruct (_ && _).
    + specialize (IH rest ltac:(lia)). lia.
    + specialize (IH (String d rest) ltac:(cbn; lia)).
      cbn [String.length] in IH. lia.
Qed.

Lemma drop_first_line_append (first rest : string) :
  Ascii.ascii_of_nat 10 ∉ String.list_ascii_of_string first →
  drop_first_line (first +:+ LF +:+ rest) = rest.
Proof.
  induction first as [|c first IH]; cbn [String.list_ascii_of_string]; intros Hnot.
  - done.
  - apply not_elem_of_cons in Hnot as [Hc Hs].
    change (String c first +:+ LF +:+ rest)
      with (String c (first +:+ LF +:+ rest)).
    cbn [drop_first_line].
    assert (Ascii.eqb c (Ascii.ascii_of_nat 10) = false) as ->
      by (apply Ascii.eqb_neq; congruence).
    by apply IH.
Qed.

Lemma drop_first_line_single (line : string) :
  Ascii.ascii_of_nat 10 ∉ String.list_ascii_of_string line → drop_first_line line = "".
Proof.
  induction line as [|c line IH]; cbn [String.list_ascii_of_string]; intros Hnot; [done|].
  apply not_elem_of_cons in Hnot as [Hc Hs]. cbn [drop_first_line].
  assert (Ascii.eqb c (Ascii.ascii_of_nat 10) = false) as ->
    by (apply Ascii.eqb_neq; congruence).
  by apply IH.
Qed.

Section pipeline_props.
Context `{Host}.

(** X13. A hook added later cannot take an argument away from an
    earlier one: when a registered arg-hook answers for an argument,
    the fragments and the hooks called are the same after
    [addArgHook] of any further entry. *)
Theorem added_arg_hook_comes_last (added : hook_entry ArgHookParams)
  (arg : jsval) (date : Z) (w : World)
  (pre rest : list (hook_entry ArgHookParams)) (hook : ArgHookParams → jsval) :
  let params := mkArgHookParams arg date in
  LogHooks.arg (_hooks (self w)) = pre ++ Callback hook :: rest →
  Forall (declines params) pre →
  nullish (hook params) = false →
  let r := run (format_arg arg date) w in
  let r' := run (addArgHook added;; format_arg arg date) w in
  r'.1 = r.1
  ∧ r.1 = Normal (pushed (hook params))
  ∧ history r'.2 = history r.2
  ∧ LogHooks.arg (_hooks (self r'.2)) = LogHooks.arg (_hooks (self w)) ++ [added].
Proof.
  intros params Hhooks Hpre Hres r r'. subst r r'.
  unfold addArgHook, format_arg. run_steps.
  unfold set_hooks. cbn [_hooks LogHooks.arg]. rewrite Hhooks.
  rewrite <- app_assoc. cbn [app].
  rewrite !run_arg_hooks_declined by done.
  cbn [run_arg_hooks]. run_steps. fold params. rewrite Hres. by run_steps.
Qed.

(** X14. When no post-hook answers, [_write] writes one chunk made of
    the shard tag, the timestamp badge, the level badge, a space, the
    text it was given and a line feed, to [_stderr] when [err] is set
    and to [_stdout] otherwise, and then empties the pending meta. *)
Theorem _write_line_format (level : LogLevel.t) (text : string) (err : bool)
  (timestamp : option Timestamp) (w : World) :
  let o := self w in
  let ts := default (timestamp_at (history w)) timestamp in
  let read := match timestamp with Some _ => [] | None => [EvNow] end in
  let params := post_params o level text ts in
  Forall (declines params) (LogHooks.post (_hooks o)) →
  run (_write level text err timestamp) w =
  (Normal This,
   mkWorld (set_meta ∅ o)
     (history w ++ read ++ hook_calls EvPostHook 0 (LogHooks.post (_hooks o)) params
        ++ [EvWrite (if err then _stderr o else _stdout o)
              (shardText o +:+ formatted ts +:+ levelStr o level +:+ " "
                 +:+ text +:+ LF)])).
Proof.
  intros o ts read params Hall.
  unfold _write. rewrite run_bind.
  assert (run match timestamp with
              | Some t => mret t
              | None => _timestamp
              end w = (Normal ts, mkWorld o (history w ++ read))) as ->.
  { subst o ts read. destruct timestamp; simpl.
    - by rewrite run_ret, world_no_events.
    - unfold _timestamp. by run_steps. }
  run_steps. fold o.
  rewrite <- (app_nil_r (LogHooks.post (_hooks o))) at 1.
  rewrite run_post_hooks_declined by done.
  cbn [run_post_hooks]. run_steps. by rewrite <- !app_assoc.
Qed.

(** X15. A call that is written goes to [_stderr] when its level is an
    error level and to [_stdout] otherwise, whatever the hooks do. *)
Theorem written_call_stream (level active : LogLevel.t) (args : list jsval)
  (w : World) :
  run _level w = (Normal (Own active), w) →
  js_gt (LogLevel.position level) (LogLevel.position active) = false →
  ∃ chunk,
    writes (history (run (_format level args) w).2) =
      writes (history w)
        ++ [(if LogLevel.err level then _stderr (self w) else _stdout (self w),
             chunk)].
Proof.
  intros Hlevel Hgt.
  assert (levelMap_get (_levelMap (self w)) (property_key (_levelName (self w)))
            = Own active) as Hactive.
  { unfold _level in Hlevel. revert Hlevel. run_steps. congruence. }
  destruct (_format_passed level active args w Hactive Hgt)
    as (chunk & before & -> & Hw).
  exists chunk. cbn [snd history]. by rewrite !writes_app, Hw.
Qed.

(** X16. The template step leaves the arguments alone when the first
    one is a string without a percent sign, and a template never takes
    more arguments than half its length. *)
Theorem expand_template_plain (s : string) (rest : list jsval) :
  ("%"%char ∉ String.list_ascii_of_string s →
     expand_template (VStr s :: rest) = VStr s :: rest)
  ∧ (2 * (length (VStr s :: rest) - length (expand_template (VStr s :: rest)))
      ≤ String.length s)%nat.
Proof.
  split.
  - intros Hplain. unfold expand_template.
    by rewrite count_formats_no_percent.
  - unfold expand_template. pose proof (count_formats_bound s) as Hbound.
    destruct (count_formats s =? 0)%nat; cbn [length]; [lia|].
    rewrite length_drop. lia.
Qed.

(** X17. The stack a trace level appends is the stack text after its
    first line: of a text of several lines the rest is kept, of a text
    of one line nothing. *)
Theorem drop_first_line_keeps_rest (first rest : string) :
  Ascii.ascii_of_nat 10 ∉ String.list_ascii_of_string first →
  drop_first_line (first +:+ LF +:+ rest) = rest
  ∧ drop_first_line first = "".
Proof.
  intros Hnot. split.
  - by apply drop_first_line_append.
  - by apply drop_first_line_single.
Qed.

End pipeline_props.

(** ** The constructor *)

Section constructor_props.
Context `{Host}.

(** [setLevel] changes the threshold name at most. *)
Lemma setLevel_frame level w :
  let r := run (setLevel level) w in
  history r.2 = history w
  ∧ same_elsewhere (self w) (self r.2)
  ∧ _levels (self r.2) = _levels (self w)
  ∧ _levelMap (self r.2) = _levelMap (self w)
  ∧ _maxLength (self r.2) = _maxLength (self w)
  ∧ _bound (self r.2) = _bound (self w).
Proof.
  intros r. subst r. unfold setLevel, same_elsewhere.
  destruct (bool_decide _); run_steps; [done|].
  destruct (negb _); run_steps; done.
Qed.

(** The constructor up to [setLevel], for an array of levels that is
    not empty. *)
Lemma constructor_run config h l :
  let ls := default DefaultLevels (LoggrConfig.levels config) in
  let sid := LoggrConfig.shardId config in
  last ls = Some l →
  ∃ o1,
    new_CatLoggr (Some config) h =
      match run (setLevel (if truthy (LoggrConfig.level config)
                           then LoggrConfig.level config
                           else VStr (LogLevel.name l))) (mkWorld o1 h) with
      | (Normal _, w2) =>
          (Normal tt,
           mkWorld (set_hooks (LogHooks.mk [] [])
                      (set_meta ∅
                         (set_defaultMeta
                            (new_LogMeta (default ∅ (LoggrConfig.meta config)))
                            (self w2))))
             (history w2))
      | (Throw e, w2) => (Throw e, w2)
      end
    ∧ (∀ s, is_Some (_levelMap o1 !! s) ↔ s ∈ map LogLevel.name ls)
    ∧ _levels o1 = map (numbered ls) ls
    ∧ _shard o1 = (if truthy sid then sid else VUndefined)
    ∧ _shardLength o1 = (if truthy sid then LoggrConfig.shardLength config else None)
    ∧ _stdout o1 = default process_stdout (LoggrConfig.stdout config)
    ∧ _stderr o1 = default process_stderr (LoggrConfig.stderr config).
Proof.
  intros ls sid Hlast. unfold new_CatLoggr, constructor.
  change (default LoggrConfig.empty (Some config)) with config. cbv zeta.
  fold ls sid. rewrite run_bind.
  assert (∃ o0,
    run (if truthy sid
         then update (set_shard sid);;
              update (set_shardLength (LoggrConfig.shardLength config))
         else mret tt) (mkWorld blank h) = (Normal tt, mkWorld o0 h)
    ∧ _shard o0 = (if truthy sid then sid else VUndefined)
    ∧ _shardLength o0 = (if truthy sid then LoggrConfig.shardLength config else None))
    as (o0 & -> & Hshard & Hlen).
  { destruct (truthy sid); run_steps; eexists; split_and!; reflexivity. }
  run_steps.
  match goal with |- context [run (setLevels _) ?w1] =>
    destruct (setLevels_full ls l w1 Hlast)
      as (o1 & -> & Hlevels & _ & _ & Hkeys & _ & _ & _ & _ & Hframe)
  end.
  destruct Hframe as (Hs & Hsl & _ & _ & Hout & Herr & _).
  unfold set_stderr, set_stdout in Hs, Hsl, Hout, Herr.
  cbn [self _shard _shardLength _stdout _stderr] in Hs, Hsl, Hout, Herr.
  run_steps. exists o1. split_and!; try congruence; try done.
  rewrite Hlevels.
  change (last (map (numbered ls) ls)) with (last (numbered ls <$> ls)).
  rewrite fmap_last, Hlast. cbn [fmap option_fmap option_map].
  change (LogLevel.name (numbered ls l)) with (LogLevel.name l).
  assert (∀ v, run (if truthy (LoggrConfig.level config)
                    then mret (LoggrConfig.level config)
                    else mret v) (mkWorld o1 h)
            = (Normal (if truthy (LoggrConfig.level config)
                       then LoggrConfig.level config else v), mkWorld o1 h))
    as -> by (intros v; destruct (truthy (LoggrConfig.level config)); reflexivity).
  run_steps.
  destruct (run (setLevel _) _) as [[r|e] w2]; [|reflexivity].
  unfold setDefaultMeta. by run_steps.
Qed.

(** With an empty array of levels the constructor throws where
    [setLevels] reads the name of the last level. *)
Lemma constructor_empty_levels config h :
  default DefaultLevels (LoggrConfig.levels config) = [] →
  ∃ message w', new_CatLoggr (Some config) h = (Throw (TypeError message), w').
Proof.
  intros Hempty. unfold new_CatLoggr, constructor.
  change (default LoggrConfig.empty (Some config)) with config. cbv zeta.
  rewrite Hempty, run_bind.
  assert (∃ o0,
    run (if truthy (LoggrConfig.shardId config)
         then update (set_shard (LoggrConfig.shardId config));;
              update (set_shardLength (LoggrConfig.shardLength config))
         else mret tt) (mkWorld blank h) = (Normal tt, mkWorld o0 h)
    ∧ _levelName o0 = None) as (o0 & -> & Hname).
  { destruct (truthy _); run_steps; eexists; split; reflexivity. }
  run_steps. unfold setLevels. run_steps. cbn [setLevels_map]. run_steps.
  unfold set_levels, set_levelMap, set_stderr, set_stdout.
  cbn [_levelMap _levelName _levels]. rewrite Hname. cbn. eauto.
Qed.

(** What a construction that returned has set up. *)
Lemma constructor_post config h w' :
  new_CatLoggr (Some config) h = (Normal tt, w') →
  let sid := LoggrConfig.shardId config in
  history w' = h
  ∧ _meta (self w') = ∅
  ∧ _hooks (self w') = LogHooks.mk [] []
  ∧ _defaultMeta (self w') = new_LogMeta (default ∅ (LoggrConfig.meta config))
  ∧ _shard (self w') = (if truthy sid then sid else VUndefined)
  ∧ _shardLength (self w')
      = (if truthy sid then LoggrConfig.shardLength config else None)
  ∧ _stdout (self w') = default process_stdout (LoggrConfig.stdout config)
  ∧ _stderr (self w') = default process_stderr (LoggrConfig.stderr config).
Proof.
  intros Hrun sid. subst sid.
  destruct (last (default DefaultLevels (LoggrConfig.levels config)))
    as [l|] eqn:Hlast.
  - destruct (constructor_run config h l Hlast)
      as (o1 & Heq & _ & _ & Hs & Hsl & Hout & Herr).
    rewrite Heq in Hrun. clear Heq.
    match type of Hrun with context [run (setLevel ?v) ?w1] =>
      pose proof (setLevel_frame v w1) as (Hh & Hframe & _);
      destruct (run (setLevel v) w1) as [[r|e] w2]; [|done]
    end.
    injection Hrun as <-. cbn [snd self history] in *.
    destruct Hframe as (Hs' & Hsl' & _ & _ & Hout' & Herr' & _).
    unfold set_hooks, set_meta, set_defaultMeta.
    cbn [self history _meta _hooks _defaultMeta _shard _shardLength _stdout _stderr].
    cbv zeta in *. split_and!; congruence.
  - apply last_None in Hlast.
    destruct (constructor_empty_levels config h Hlast) as (? & ? & Heq).
    by rewrite Heq in Hrun.
Qed.

(** X18. A construction that returns has written nothing and read no
    clock; it starts with an empty pending meta and no hooks, stores
    the defaults made of the [meta] option, takes the given streams or
    those of the process, and keeps the shard and its length only when
    the shard id is truthy. *)
Theorem constructor_sets_up (config : LoggrConfig.t) (h : list event)
  (w' : World) :
  new_CatLoggr (Some config) h = (Normal tt, w') →
  let sid := LoggrConfig.shardId config in
  history w' = h
  ∧ _meta (self w') = ∅
  ∧ _hooks (self w') = LogHooks.mk [] []
  ∧ _defaultMeta (self w') = new_LogMeta (default ∅ (LoggrConfig.meta config))
  ∧ _shard (self w') = (if truthy sid then sid else VUndefined)
  ∧ _shardLength (self w')
      = (if truthy sid then LoggrConfig.shardLength config else None)
  ∧ _stdout (self w') = default process_stdout (LoggrConfig.stdout config)
  ∧ _stderr (self w') = default process_stderr (LoggrConfig.stderr config).
Proof. apply constructor_post. Qed.

(** X19. With a [level] option that is the name of one of the levels,
    the construction returns with that name as the threshold. *)
Theorem constructor_takes_level (config : LoggrConfig.t) (h : list event)
  (s : string) :
  let ls := default DefaultLevels (LoggrConfig.levels config) in
  LoggrConfig.level config = VStr s →
  s ≠ "" →
  s ∈ map LogLevel.name ls →
  let r := new_CatLoggr (Some config) h in
  r.1 = Normal tt ∧ _levelName (self r.2) = Some s.
Proof.
  intros ls Hlevel Hs Hin r. subst r.
  destruct (last ls) as [l|] eqn:Hlast;
    [|apply last_None in Hlast; rewrite Hlast in Hin; by apply elem_of_nil in Hin].
  destruct (constructor_run config h l Hlast) as (o1 & -> & Hkeys & _).
  rewrite Hlevel. cbn [truthy].
  rewrite (proj2 (String.eqb_neq s "")) by done. cbn [negb].
  apply Hkeys in Hin as [lv Hlv].
  by rewrite (setLevel_registered s lv).
Qed.


(** X21. A shard id that is falsy (0, the empty string, or none) is not
    kept: the logger that was constructed renders no shard tag, also
    when a call gives a [shardId] in its meta. *)
Theorem falsy_shard_id_shows_no_tag (config : LoggrConfig.t) (h : list event)
  (w' : World) (pending : MetaObj) :
  truthy (LoggrConfig.shardId config) = false →
  new_CatLoggr (Some config) h = (Normal tt, w') →
  _shard (self w') = VUndefined
  ∧ shardText (set_meta pending (self w')) = "".
Proof.
  intros Hfalsy Hrun.
  destruct (constructor_post config h w' Hrun) as (_ & _ & _ & _ & Hs & _).
  rewrite Hfalsy in Hs. split; [done|].
  unfold shardText, set_meta. cbn [_shard]. by rewrite Hs.
Qed.

End constructor_props.

(** ** When the threshold does not resolve to a level *)

Section threshold_props.
Context `{Host}.

(** A call whose threshold is a member of [Object.prototype] compares
    with [undefined], passes, and is written. *)
Lemma _format_inherited level args w :
  levelMap_get (_levelMap (self w)) (property_key (_levelName (self w)))
    = Inherited →
  ∃ chunk before,
    run (_format level args) w =
      (Normal This,
       mkWorld (set_meta (Object_assign (Object_assign ∅ (_defaultMeta (self w))) ∅)
                  (set_meta ∅ (self w)))
         (history w ++ before
            ++ [EvWrite (if LogLevel.err level then _stderr (self w)
                         else _stdout (self w)) chunk]))
    ∧ writes before = [].
Proof.
  intros Hactive. unfold _format, _timestamp, _level. run_steps.
  rewrite Hactive. run_steps.
  assert (js_gt (LogLevel.position level) None = false) as ->
    by by destruct (LogLevel.position level).
  rewrite run_bind.
  destruct (format_args_quiet (expand_template args)
              (raw (timestamp_at (history w))) []
              (mkWorld (self w) (history w ++ [EvNow])))
    as (text & evs & -> & Hw & _).
  run_steps.
  destruct (_write_writes_once level (assemble (self w) level text)
              (LogLevel.err level) None
              (mkWorld (self w) ((history w ++ [EvNow]) ++ evs)))
    as (chunk & evs' & -> & Hw' & _).
  unfold meta. run_steps.
  exists chunk, ([EvNow] ++ evs ++ evs'). split.
  - by rewrite <- !app_assoc.
  - by rewrite !writes_app, Hw, Hw'.
Qed.

(** X22. [setLevel] accepts the name of a member of [Object.prototype]
    that is not the name of a level, and from then on nothing is
    filtered: every call of [_format] is written, whatever the position
    of its level. *)
Theorem inherited_threshold_filters_nothing (s : string) (level : LogLevel.t)
  (args : list jsval) (w : World) :
  s ∈ Object_prototype_keys →
  _levelMap (self w) !! s = None →
  let r := run (setLevel (VStr s)) w in
  r.1 = Normal This
  ∧ _levelName (self r.2) = Some s
  ∧ ∃ stream chunk,
      writes (history (run (_format level args) r.2).2)
        = writes (history w) ++ [(stream, chunk)].
Proof.
  intros Hin Hnone r. subst r.
  assert (run (setLevel (VStr s)) w =
            (Normal This, mkWorld (set_levelName (Some s) (self w)) (history w)))
    as ->.
  { unfold setLevel. cbn [typeof typeof_scalar js_toString].
    rewrite bool_decide_eq_false_2 by (by intros ?). run_steps.
    unfold levelMap_get. rewrite Hnone, bool_decide_eq_true_2 by done.
    cbn [lookup_truthy negb]. by run_steps. }
  cbn [fst snd]. split_and!; try done.
  match goal with |- context [run (_format level args) ?w1] =>
    destruct (_format_inherited level args w1) as (chunk & before & -> & Hw)
  end.
  { unfold levelMap_get, set_levelName. cbn [self _levelMap _levelName].
    change (property_key (Some s)) with s.
    by rewrite Hnone, bool_decide_eq_true_2. }
  eexists _, chunk. cbn [snd history self]. by rewrite !writes_app, Hw.
Qed.

(** X23. After [setLevels] has thrown on the empty array, the level
    functions that were bound are still bound, and each of them throws
    a [TypeError] without writing, since the threshold resolves to no
    level. *)
Theorem level_functions_throw_after_empty_array (name : string)
  (level : LogLevel.t) (args : list jsval) (w : World) :
  property_key (_levelName (self w)) ∉ Object_prototype_keys →
  _bound (self w) !! name = Some level →
  let w' := (run (setLevels (LevelsArray [])) w).2 in
  let r := run (call name args) w' in
  _bound (self w') !! name = Some level
  ∧ (∃ message, r.1 = Throw (TypeError message))
  ∧ writes (history r.2) = writes (history w).
Proof.
  intros Hkey Hbound w' r. subst r w'.
  assert (run (setLevels (LevelsArray [])) w =
            (Throw (TypeError "Cannot read properties of undefined (reading 'name')"),
             mkWorld (set_levels [] (set_levels [] (set_levelMap ∅ (self w))))
               (history w))) as ->.
  { unfold setLevels. run_steps. cbn [setLevels_map]. run_steps.
    unfold levelMap_get, set_levels, set_levelMap.
    cbn [_levelMap _levelName _levels].
    rewrite lookup_empty, bool_decide_eq_false_2 by done. by cbn. }
  cbn [snd]. unfold call. run_steps.
  unfold set_levels, set_levelMap. cbn [_bound]. rewrite Hbound.
  split; [done|].
  unfold _format, _timestamp, _level. run_steps.
  unfold levelMap_get. cbn [_levelMap _levelName].
  rewrite lookup_empty, bool_decide_eq_false_2 by done.
  run_steps. split; [eauto|].
  by rewrite writes_app, app_nil_r.
Qed.

End threshold_props.

(** ** The JavaScript variant *)

(** X24. In the JavaScript variant [meta(options)] writes the options
    into the stored defaults: afterwards the defaults and the pending
    meta are one object, the options over the old defaults, and they
    stay so after the call that is written. *)
Theorem legacy_meta_merges_into_defaults (options : MetaObj)
  (o : Legacy.CatLoggr) :
  let o' := Legacy.meta options o in
  Legacy.defaults o' = options ∪ Legacy.defaults o
  ∧ Legacy._meta o' = Legacy._defaultMeta o'
  ∧ Legacy.defaults (Legacy.written o') = options ∪ Legacy.defaults o
  ∧ Legacy.pending (Legacy.written o') = options ∪ Legacy.defaults o.
Proof.
  intros o'. subst o'.
  unfold Legacy.written, Legacy.meta, Legacy.defaults, Legacy.pending,
    Legacy.deref.
  cbn [Legacy.store Legacy._defaultMeta Legacy._meta Legacy.next].
  rewrite !lookup_insert_eq. cbn [default from_option id].
  unfold Object_assign. split_and!; try done.
  - apply (left_id_L ∅ (∪)).
  - apply (left_id_L ∅ (∪)).
Qed.

Lemma pretty_digit (n : Z) :
  (0 ≤ n < 10)%Z → String.length (pretty n) = 1.
Proof.
  intros Hn.
  assert (n = 0 ∨ n = 1 ∨ n = 2 ∨ n = 3 ∨ n = 4 ∨ n = 5 ∨ n = 6 ∨ n = 7
          ∨ n = 8 ∨ n = 9)%Z as Hcases by lia.
  repeat (destruct Hcases as [->|Hcases]; [by vm_compute|]).
  subst. by vm_compute.
Qed.

(** X25. In the JavaScript variant a shard id that is truthy gets the
    default length 4: the text of the tag is never shorter than 4, and
    a number from 1 to 9 is written with a leading zero between one
    space on each side. *)
Theorem legacy_shard_default_width `{Host} (shardId : jsval) :
  truthy shardId = true →
  let o := LegacyShard.constructor shardId None in
  (∃ text, LegacyShard.shardText o = chalk "black.bold.bgYellow" text
           ∧ (4 ≤ String.length text)%nat)
  ∧ (∀ n, shardId = VNum n → (0 < n < 10)%Z →
       LegacyShard.shardText o
         = chalk "black.bold.bgYellow" (" 0" +:+ pretty n +:+ " ")).
Proof.
  intros Htruthy o. split.
  - assert (truthy (LegacyShard._shard o) = true
            ∧ LegacyShard._shardLength o = Some 4%Z) as [Ht Hl].
    { subst o. unfold LegacyShard.constructor. rewrite Htruthy.
      cbn [default from_option id LegacyShard._shard LegacyShard._shardLength].
      destruct shardId as [[| |b|n|s|x|f]|xs]; try done.
      destruct (n <? 10)%Z; [|done]. split; [|done].
      cbn [LegacyShard._shard truthy].
      by change ("0" +:+ pretty n) with (String "0" (pretty n)). }
    unfold LegacyShard.shardText. rewrite Ht, Hl. eexists. split; [done|].
    pose proof (_centrePad_length
                  (js_toString obj_toString (LegacyShard._shard o)) 4). lia.
  - intros n -> Hn. subst o. unfold LegacyShard.constructor, LegacyShard.shardText.
    cbn [truthy] in *. rewrite Htruthy.
    cbn [default from_option id LegacyShard._shard LegacyShard._shardLength].
    rewrite (proj2 (Z.ltb_lt n 10)) by lia.
    cbn [LegacyShard._shard LegacyShard._shardLength truthy js_toString].
    change ("0" +:+ pretty n) with (String "0" (pretty n)).
    cbn [String.eqb negb]. f_equal.
    unfold _centrePad. cbn [String.length]. rewrite pretty_digit by lia.
    by vm_compute.
Qed.

(** ** The further properties at work *)

Import Examples.

(** [warn] in a badge of width 9. *)
Lemma _centrePad_centres_witness :
  (Z.of_nat (String.length "warn") < 9)%Z
  ∧ ∃ left right,
      _centrePad "warn" (Some 9%Z) = spaces left +:+ "warn" +:+ spaces right
      ∧ Z.of_nat (left + String.length "warn" + right) = 9%Z
      ∧ (right = left ∨ right = S left).
Proof.
  assert (Z.of_nat (String.length "warn") < 9)%Z as Hlt by (cbn; lia).
  split; [exact Hlt|]. exact (_centrePad_centres "warn" 9 Hlt).
Defined.

(** [setLevels([catnip, fish])] on the default logger. *)
Lemma setLevels_numbers_in_order_witness :
  two_levels ≠ []
  ∧ NoDup (map LogLevel.oid two_levels)
  ∧ (run (setLevels (LevelsArray two_levels)) default_logger).1 = Normal This.
Proof.
  assert (two_levels ≠ []) as Hne by done.
  assert (NoDup (map LogLevel.oid two_levels)) as Hdup
    by (apply (bool_decide_unpack _); vm_compute; exact I).
  split; [exact Hne|]. split; [exact Hdup|].
  apply (setLevels_numbers_in_order two_levels default_logger Hne Hdup).
Defined.

Lemma setLevels_badges_same_width_witness :
  two_levels ≠ []
  ∧ _maxLength (self (run (setLevels (LevelsArray two_levels)) default_logger).2)
      = Some 8%Z.
Proof.
  assert (two_levels ≠ []) as Hne by done.
  split; [exact Hne|].
  apply (setLevels_badges_same_width two_levels default_logger Hne).
Defined.

(** The threshold [debug] is not a name of the new array: it becomes
    [fish]. *)
Lemma setLevels_keeps_or_resets_threshold_witness :
  last two_levels = Some fish
  ∧ _levelName (self (run (setLevels (LevelsArray two_levels)) default_logger).2)
      = Some "fish".
Proof.
  assert (last two_levels = Some fish) as Hlast by reflexivity.
  split; [exact Hlast|].
  apply (setLevels_keeps_or_resets_threshold two_levels fish default_logger Hlast).
  - apply (bool_decide_unpack _); vm_compute; exact I.
  - apply (bool_decide_unpack _); vm_compute; exact I.
Defined.

(** The old level function [info] is still bound after the array was
    replaced. *)
Lemma setLevels_binds_names_and_aliases_witness :
  two_levels ≠ []
  ∧ is_Some (_bound (self default_logger) !! "info")
  ∧ is_Some (_bound (self (run (setLevels (LevelsArray two_levels))
                                default_logger).2) !! "info").
Proof.
  assert (two_levels ≠ []) as Hne by done.
  assert (is_Some (_bound (self default_logger) !! "info")) as Hinfo
    by (vm_compute; eauto).
  split; [exact Hne|]. split; [exact Hinfo|].
  apply (setLevels_binds_names_and_aliases two_levels default_logger Hne).
  exact Hinfo.
Defined.

Lemma setLevels_then_setLevel_witness :
  catnip ∈ two_levels
  ∧ ∃ active,
      (run (setLevels (LevelsArray two_levels);;
            setLevel (VStr (LogLevel.name catnip));;
            _level) default_logger).1 = Normal (Own active)
      ∧ LogLevel.name active = LogLevel.name catnip
      ∧ active ∈ _levels (self (run (setLevels (LevelsArray two_levels);;
            setLevel (VStr (LogLevel.name catnip));;
            _level) default_logger).2)
      ∧ _levelName (self (run (setLevels (LevelsArray two_levels);;
            setLevel (VStr (LogLevel.name catnip));;
            _level) default_logger).2) = Some (LogLevel.name catnip).
Proof.
  assert (catnip ∈ two_levels) as Hin by (left).
  split; [exact Hin|].
  exact (setLevels_then_setLevel two_levels catnip default_logger Hin).
Defined.

(** [meta({ quote: true }).fatal('x')] with the threshold at [warn]. *)
Lemma meta_lasts_one_written_call_witness :
  run _level warn_logger = (Normal (Own warn_level), warn_logger)
  ∧ js_gt (LogLevel.position fatal_level) (LogLevel.position warn_level) = false
  ∧ _meta (self (run (meta {[ "quote" := VBool true ]};;
                      _format fatal_level [VStr "x"]) warn_logger).2)
      = _defaultMeta (self warn_logger).
Proof.
  assert (run _level warn_logger = (Normal (Own warn_level), warn_logger)) as H1
    by (vm_compute; reflexivity).
  split; [exact H1|]. split; [reflexivity|].
  apply (meta_lasts_one_written_call {[ "quote" := VBool true ]} fatal_level
           warn_level [VStr "x"] warn_logger H1 eq_refl).
Defined.

(** [meta({ quote: true }).info('x')] with the threshold at [warn]. *)
Lemma filtered_call_keeps_pending_meta_witness :
  run _level warn_logger = (Normal (Own warn_level), warn_logger)
  ∧ js_gt (LogLevel.position info_level) (LogLevel.position warn_level) = true
  ∧ _meta (self (run (meta {[ "quote" := VBool true ]};;
                      _format info_level [VStr "x"]) warn_logger).2)
      = {[ "quote" := VBool true ]} ∪ _defaultMeta (self warn_logger).
Proof.
  assert (run _level warn_logger = (Normal (Own warn_level), warn_logger)) as H1
    by (vm_compute; reflexivity).
  split; [exact H1|]. split; [reflexivity|].
  apply (filtered_call_keeps_pending_meta {[ "quote" := VBool true ]} info_level
           warn_level [VStr "x"] warn_logger H1 eq_refl).
Defined.

Lemma added_arg_hook_comes_last_witness :
  (run (addArgHook (Callback (λ _, VStr "late"));; format_arg (VStr "a") 0)
     three_arg_hooks).1
  = (run (format_arg (VStr "a") 0) three_arg_hooks).1.
Proof.
  assert (Forall (declines (mkArgHookParams (VStr "a") 0))
            [Callback (λ _ : ArgHookParams, VNull)]) as Hpre
    by (repeat constructor).
  destruct (added_arg_hook_comes_last (Callback (λ _, VStr "late")) (VStr "a") 0
              three_arg_hooks [Callback (λ _, VNull)]
              [Callback (λ _, VStr "never")] (λ _, VArr [VStr "x"; VStr "y"])
              eq_refl Hpre eq_refl) as [Hsame _].
  exact Hsame.
Defined.

Lemma _write_line_format_witness :
  writes (history (run (_write debug_level "text" false None)
                     one_declining_post_hook).2)
  = [(process_stdout, " 01/01 00:00:00   debug   text" +:+ LF)].
Proof.
  rewrite (_write_line_format debug_level "text" false None
             one_declining_post_hook ltac:(repeat constructor)).
  reflexivity.
Defined.

Lemma written_call_stream_witness :
  run _level warn_logger = (Normal (Own warn_level), warn_logger)
  ∧ ∃ chunk,
      writes (history (run (_format fatal_level [VStr "x"]) warn_logger).2)
        = writes (history warn_logger) ++ [(process_stderr, chunk)].
Proof.
  assert (run _level warn_logger = (Normal (Own warn_level), warn_logger)) as H1
    by (vm_compute; reflexivity).
  split; [exact H1|].
  exact (written_call_stream fatal_level warn_level [VStr "x"] warn_logger
           H1 eq_refl).
Defined.

Lemma expand_template_plain_witness :
  expand_template [VStr "hello"; VNum 1] = [VStr "hello"; VNum 1].
Proof.
  apply (proj1 (expand_template_plain "hello" [VNum 1])).
  apply (bool_decide_unpack _); vm_compute; exact I.
Defined.

Lemma drop_first_line_keeps_rest_witness :
  drop_first_line ("Error" +:+ LF +:+ "    at main") = "    at main"
  ∧ drop_first_line "Error" = "".
Proof.
  apply (drop_first_line_keeps_rest "Error" "    at main").
  apply (bool_decide_unpack _); vm_compute; exact I.
Defined.

Lemma constructor_sets_up_witness :
  new_CatLoggr (Some LoggrConfig.empty) [] = (Normal tt, default_logger)
  ∧ _meta (self default_logger) = ∅.
Proof.
  assert (new_CatLoggr (Some LoggrConfig.empty) [] = (Normal tt, default_logger))
    as Hrun by (vm_compute; reflexivity).
  split; [exact Hrun|].
  apply (constructor_sets_up LoggrConfig.empty [] default_logger Hrun).
Defined.

Lemma constructor_takes_level_witness :
  _levelName (self (new_CatLoggr (Some warn_config) []).2) = Some "warn".
Proof.
  apply (constructor_takes_level warn_config [] "warn" eq_refl).
  - done.
  - apply (bool_decide_unpack _); vm_compute; exact I.
Defined.


Lemma falsy_shard_id_shows_no_tag_witness :
  truthy (LoggrConfig.shardId shard0_config) = false
  ∧ shardText (set_meta {[ "shardId" := VNum 7 ]}
                 (self (new_CatLoggr (Some shard0_config) []).2)) = "".
Proof.
  split; [reflexivity|].
  apply (falsy_shard_id_shows_no_tag shard0_config []
           (new_CatLoggr (Some shard0_config) []).2
           {[ "shardId" := VNum 7 ]} eq_refl).
  vm_compute. reflexivity.
Defined.

(** [setLevel('toString')], then [info('x')]. *)
Lemma inherited_threshold_filters_nothing_witness :
  (run (setLevel (VStr "toString")) default_logger).1 = Normal This.
Proof.
  apply (inherited_threshold_filters_nothing "toString" info_level [VStr "x"]
           default_logger).
  - apply (bool_decide_unpack _); vm_compute; exact I.
  - vm_compute. reflexivity.
Defined.

Lemma level_functions_throw_after_empty_array_witness :
  ∃ message,
    (run (call "log" [VStr "x"])
       (run (setLevels (LevelsArray [])) default_logger).2).1
    = Throw (TypeError message).
Proof.
  apply (level_functions_throw_after_empty_array "log" debug_level [VStr "x"]
           default_logger).
  - apply (bool_decide_unpack _); vm_compute; exact I.
  - vm_compute. reflexivity.
Defined.

Lemma legacy_shard_default_width_witness :
  LegacyShard.shardText (LegacyShard.constructor (VNum 1) None) = " 01 ".
Proof.
  rewrite (proj2 (legacy_shard_default_width (VNum 1) eq_refl) 1%Z eq_refl
             ltac:(lia)).
  vm_compute. reflexivity.
Defined.
